(** * Product API with Redis cache: the cache-aside protocol

    A shallow embedding of [src/services/cache_service.py],
    [src/services/product_repository.py], [src/api/products.py] and the
    schemas and ORM model they use, with the properties of the cache-aside
    protocol proved about it.

    The durable store (SQLAlchemy session over the [products] table), the
    Redis client and the JSON layer (pydantic's [model_dump_json],
    [json.loads]) are the collaborators of that code; they are modelled
    here as far as the code relies on them. *)

From Stdlib Require Import ZArith NArith String Ascii DecimalString DecimalN DecimalPos DecimalFacts.
From stdpp Require Import base option list strings gmap.

Local Open Scope string_scope.
Local Open Scope Z_scope.

(* ===================================================================== *)
(** ** Characters and strings *)
(* ===================================================================== *)

(** The double quote and the backslash, by their codes. *)
Definition dquote : ascii := "034"%char.
Definition backslash : ascii := "092"%char.

Fixpoint string_forall (p : ascii → bool) (s : string) : bool :=
  match s with
  | EmptyString => true
  | String c rest => p c && string_forall p rest
  end.

(** [split_on p s]: the part of [s] before its first character satisfying
    [p], and the part after it when there is one. *)
Fixpoint split_on (p : ascii → bool) (s : string) : string * option string :=
  match s with
  | EmptyString => (EmptyString, None)
  | String c rest =>
      if p c then (EmptyString, Some rest)
      else let '(a, b) := split_on p rest in (String c a, b)
  end.

(* ===================================================================== *)
(** ** Python values *)
(* ===================================================================== *)

(** A Python [float] is an IEEE 754 binary64 number: a sign and
    [significand * 2^exponent2], an infinity, or NaN.  The handlers do no
    arithmetic on prices: they compare them with zero, store them and send
    them through JSON. *)
Inductive pyfloat :=
  | Finite (negative : bool) (significand exponent2 : Z)
  | Infinity (negative : bool)
  | NaN.

(** The numbers the format has: 53 bits of significand, exponents from
    -1074 to 971, and a full significand above the least exponent. *)
Definition canonical (m e : Z) : bool :=
  (0 <=? m) && (m <? 2 ^ 53) && (-1074 <=? e) && (e <=? 971)
  && ((e =? -1074) || (2 ^ 52 <=? m)).

Global Instance pyfloat_eq_dec : EqDecision pyfloat.
Proof. solve_decision. Defined.

Definition float_finite (x : pyfloat) : bool :=
  match x with
  | Finite _ m e => canonical m e
  | _ => false
  end.

Definition is_nan (x : pyfloat) : bool :=
  match x with NaN => true | _ => false end.

(** [x > 0] *)
Definition float_gt_0 (x : pyfloat) : bool :=
  match x with
  | Finite false m _ => 0 <? m
  | Infinity false => true
  | _ => false
  end.

(** Whether [2^l <= n/d], for positive [n] and [d]. *)
Definition pow2_le (l n d : Z) : bool :=
  if 0 <=? l then d * 2 ^ l <=? n else d <=? n * 2 ^ (- l).

(** The integer part of the binary logarithm of [n/d]. *)
Definition ilog2_ratio (n d : Z) : Z :=
  let l := Z.log2 n - Z.log2 d in
  if pow2_le l n d then l else l - 1.

(** [num/den] rounded to the nearest integer, a tie to the even one. *)
Definition round_half_even (num den : Z) : Z :=
  let q := num / den in
  let r := num mod den in
  if 2 * r <? den then q
  else if den <? 2 * r then q + 1
  else if Z.even q then q else q + 1.

(** The float nearest to [n/d] (round to nearest, ties to even), as the
    conversion of a decimal text to a float computes it. *)
Definition round_ratio (neg : bool) (n d : Z) : pyfloat :=
  if n =? 0 then Finite neg 0 (-1074)
  else
    let e := Z.max (-1074) (ilog2_ratio n d - 52) in
    let m := if 0 <=? e then round_half_even n (d * 2 ^ e)
             else round_half_even (n * 2 ^ (- e)) d in
    let e' := if m =? 2 ^ 53 then e + 1 else e in
    let m' := if m =? 2 ^ 53 then 2 ^ 52 else m in
    if 971 <? e' then Infinity neg else Finite neg m' e'.

(** [float] of the decimal [m * 10^k], [m >= 0]. *)
Definition float_of_decimal (neg : bool) (m k : Z) : pyfloat :=
  if 0 <=? k then round_ratio neg (m * 10 ^ k) 1 else round_ratio neg m (10 ^ (- k)).

(** [float(n)] of an integer; [None] stands for [OverflowError]. *)
Definition float_of_Z (n : Z) : option pyfloat :=
  match float_of_decimal (n <? 0) (Z.abs n) 0 with
  | Infinity _ => None
  | x => Some x
  end.

(** [int(x)] of a float without a fractional part. *)
Definition float_as_int (x : pyfloat) : option Z :=
  match x with
  | Finite neg m e =>
      if canonical m e && ((0 <=? e) || (m mod 2 ^ (- e) =? 0))
      then let n := if 0 <=? e then m * 2 ^ e else m / 2 ^ (- e) in
           Some (if neg then - n else n)
      else None
  | _ => None
  end.

(** [floor (n/d * 10^s)] *)
Definition scaled_floor (n d s : Z) : Z :=
  if 0 <=? s then (n * 10 ^ s) / d else n / (d * 10 ^ (- s)).

(** Twice the distance from [n/d * 10^s] to [c], scaled to an integer, with
    its sign: used to find the nearer of two candidates. *)
Definition scaled_rem (n d s : Z) : Z * Z :=
  if 0 <=? s then ((n * 10 ^ s) mod d, d) else (n mod (d * 10 ^ (- s)), d * 10 ^ (- s)).

Fixpoint strip_zeros (fuel : nat) (c k : Z) : Z * Z :=
  match fuel with
  | O => (c, k)
  | S fuel => if (0 <? c) && (c mod 10 =? 0) then strip_zeros fuel (c / 10) (k + 1) else (c, k)
  end.

Definition number_of_digits (z : Z) : Z :=
  Z.of_nat (Decimal.nb_digits (N.to_uint (Z.to_N z))).

Section shortest.
Variables m e : Z.

Definition reads_back (ck : Z * Z) : bool :=
  (0 <? ck.1)
  && bool_decide (float_of_decimal false ck.1 ck.2 = Finite false m e).

Let n := if 0 <=? e then m * 2 ^ e else m.
Let d := if 0 <=? e then 1 else 2 ^ (- e).
(** [10^(p-1) <= m * 2^e < 10^p] *)
Let p := number_of_digits (scaled_floor n d 400) - 400.

(** The candidate with [digits] digits, if one reads back as the float:
    the decimals on either side of the float, the nearer first. *)
Definition candidate (digits : Z) : option (Z * Z) :=
  let s := digits - p in
  let lo := strip_zeros 20 (scaled_floor n d s) (- s) in
  let hi := strip_zeros 20 (scaled_floor n d s + 1) (- s) in
  let '(r, den) := scaled_rem n d s in
  let lo_first := (2 * r <? den) || ((2 * r =? den) && Z.even (scaled_floor n d s)) in
  let '(a, b) := if lo_first then (lo, hi) else (hi, lo) in
  if reads_back a then Some a else if reads_back b then Some b else None.

Fixpoint shortest_from (fuel : nat) (digits : Z) : option (Z * Z) :=
  match fuel with
  | O => None
  | S fuel =>
      match candidate digits with
      | Some ck => Some ck
      | None => shortest_from fuel (digits + 1)
      end
  end.

(** The value written out in full. *)
Definition exact_decimal : Z * Z :=
  if 0 <=? e then (m * 2 ^ e, 0) else (m * 5 ^ (- e), e).

(** The shortest decimal that reads back as the float: its digits and its
    exponent.  Seventeen digits are enough for a binary64 number. *)
Definition shortest_decimal : Z * Z :=
  match shortest_from 17 1 with
  | Some ck => ck
  | None => exact_decimal
  end.
End shortest.

#[warnings="-register-all"]
Inductive json :=
  | JNull
  | JBool (b : bool)
  | JInt (n : Z)
  | JFloat (x : pyfloat)
  | JStr (s : string)
  | JArr (l : list json)
  | JObj (members : list (string * json)).

(* ===================================================================== *)
(** ** JSON text: printing *)
(* ===================================================================== *)

Definition string_of_N (n : N) : string := NilZero.string_of_uint (N.to_uint n).

Definition string_of_Z (z : Z) : string :=
  match z with
  | Z0 => "0"
  | Zpos p => string_of_N (Npos p)
  | Zneg p => String "-" (string_of_N (Npos p))
  end.

Definition hex_digit (n : N) : ascii :=
  match n with
  | 0 => "0" | 1 => "1" | 2 => "2" | 3 => "3" | 4 => "4" | 5 => "5"
  | 6 => "6" | 7 => "7" | 8 => "8" | 9 => "9" | 10 => "a" | 11 => "b"
  | 12 => "c" | 13 => "d" | 14 => "e" | _ => "f"
  end%N%char.

(** One character inside a JSON string literal: the quote and the backslash
    are escaped, control characters get their short escape or [\u00XX],
    every other byte is written as it is. *)
Definition escape_char (c : ascii) : string :=
  let n := N_of_ascii c in
  if Ascii.eqb c dquote then String backslash (String dquote EmptyString)
  else if Ascii.eqb c backslash then String backslash (String backslash EmptyString)
  else if (n =? 8)%N then String backslash "b"
  else if (n =? 9)%N then String backslash "t"
  else if (n =? 10)%N then String backslash "n"
  else if (n =? 12)%N then String backslash "f"
  else if (n =? 13)%N then String backslash "r"
  else if (n <? 32)%N then
    String backslash
      (String "u" (String "0" (String "0"
        (String (hex_digit (n / 16)) (String (hex_digit (n mod 16)) EmptyString)))))
  else String c EmptyString.

Fixpoint escape (s : string) : string :=
  match s with
  | EmptyString => EmptyString
  | String c rest => escape_char c +:+ escape rest
  end.

Definition json_string (s : string) : string :=
  String dquote (escape s +:+ String dquote EmptyString).

Fixpoint zeros (n : nat) : string :=
  match n with
  | O => EmptyString
  | S n => String "0" (zeros n)
  end.

Fixpoint string_take (n : nat) (s : string) : string :=
  match n, s with
  | S n, String c rest => String c (string_take n rest)
  | _, _ => EmptyString
  end.

Fixpoint string_drop (n : nat) (s : string) : string :=
  match n, s with
  | S n, String c rest => string_drop n rest
  | _, _ => s
  end.

(** A decimal of digits [ds] and exponent [k] the way the serializer lays
    it out: plain up to sixteen integer digits and down to five leading
    zeros, with an exponent outside of that. *)
Definition format_decimal (ds : string) (k : Z) : string :=
  let kk := Z.of_nat (String.length ds) + k in
  if (0 <=? k) && (kk <=? 16) then ds +:+ zeros (Z.to_nat k) +:+ ".0"
  else if (0 <? kk) && (kk <=? 16) then
    string_take (Z.to_nat kk) ds +:+ String "." (string_drop (Z.to_nat kk) ds)
  else if (-5 <? kk) && (kk <=? 0) then
    String "0" (String "." (zeros (Z.to_nat (- kk)) +:+ ds))
  else
    match ds with
    | String c (String c' rest) =>
        String c (String "." (String c' rest)) +:+ String "e" (string_of_Z (kk - 1))
    | _ => ds +:+ String "e" (string_of_Z (kk - 1))
    end.

(** The parts of a number text: its sign, its fraction and its exponent. *)
Definition sign_text (neg : bool) : string := if neg then "-" else EmptyString.
Definition fraction_text (fp : option string) : string :=
  from_option (String ".") EmptyString fp.
Definition exponent_text (ex : option Z) : string :=
  from_option (λ z, String "e" (string_of_Z z)) EmptyString ex.

(** A float in [model_dump_json]: the shortest decimal that reads back as
    the float; [null] for an infinity and for NaN. *)
Definition json_float (x : pyfloat) : string :=
  match x with
  | Finite neg m e =>
      if canonical m e then
        sign_text neg
        +:+ (if m =? 0 then "0.0"
             else format_decimal (string_of_Z (shortest_decimal m e).1) (shortest_decimal m e).2)
      else "null"
  | _ => "null"
  end.

(** The key of a member, with its colon. *)
Definition json_key (k : string) : string :=
  json_string k +:+ ":".

(* ===================================================================== *)
(** ** JSON text: parsing ([json.loads]) *)
(* ===================================================================== *)

Definition is_ws (c : ascii) : bool :=
  let n := N_of_ascii c in
  ((n =? 32) || (n =? 9) || (n =? 10) || (n =? 13))%N.

Fixpoint skip_ws (s : string) : string :=
  match s with
  | String c rest => if is_ws c then skip_ws rest else s
  | EmptyString => EmptyString
  end.

Definition is_digit (c : ascii) : bool :=
  let n := N_of_ascii c in ((48 <=? n) && (n <=? 57))%N.

Definition is_number_char (c : ascii) : bool :=
  is_digit c || Ascii.eqb c "-" || Ascii.eqb c "+" || Ascii.eqb c "."
  || Ascii.eqb c "e" || Ascii.eqb c "E".

(** The longest prefix made of characters a number can contain. *)
Fixpoint span_number (s : string) : string * string :=
  match s with
  | EmptyString => (EmptyString, EmptyString)
  | String c rest =>
      if is_number_char c
      then let '(tok, r) := span_number rest in (String c tok, r)
      else (EmptyString, s)
  end.

Definition digit_value (c : ascii) : N := (N_of_ascii c - 48)%N.

Fixpoint digits_value_acc (s : string) (acc : N) : N :=
  match s with
  | EmptyString => acc
  | String c rest => digits_value_acc rest (10 * acc + digit_value c)%N
  end.

Definition digits_value (s : string) : N := digits_value_acc s 0.

(** Digits of a fraction or of an exponent: not empty, zeros allowed. *)
Definition N_of_any_digits (s : string) : option N :=
  match s with
  | EmptyString => None
  | _ => if string_forall is_digit s then Some (digits_value s) else None
  end.

(** Digits of an integer part: not empty, no leading zero but for ["0"]. *)
Definition N_of_digits (s : string) : option N :=
  match s with
  | String c (String _ _) => if Ascii.eqb c "0" then None else N_of_any_digits s
  | _ => N_of_any_digits s
  end.

Definition split_minus (s : string) : bool * string :=
  match s with
  | String c rest => if Ascii.eqb c "-" then (true, rest) else (false, s)
  | EmptyString => (false, s)
  end.

Definition apply_sign (neg : bool) (n : N) : Z :=
  if neg then - Z.of_N n else Z.of_N n.

Definition parse_exponent (s : string) : option Z :=
  match s with
  | String c rest =>
      if Ascii.eqb c "-" then option_map (apply_sign true) (N_of_any_digits rest)
      else if Ascii.eqb c "+" then option_map (apply_sign false) (N_of_any_digits rest)
      else option_map (apply_sign false) (N_of_any_digits s)
  | EmptyString => None
  end.

Definition is_e (c : ascii) : bool := Ascii.eqb c "e" || Ascii.eqb c "E".
Definition is_dot (c : ascii) : bool := Ascii.eqb c ".".

(** A number token: an integer gives an [int]; with a fraction or an
    exponent it is the [float] of its digits. *)
Definition parse_number_token (tok : string) : option json :=
  let '(m_part, e_part) := split_on is_e tok in
  let '(i_part, f_part) := split_on is_dot m_part in
  let '(neg, digits) := split_minus i_part in
  i ← N_of_digits digits;
  match f_part, e_part with
  | None, None => Some (JInt (apply_sign neg i))
  | _, _ =>
      fs ← match f_part with
           | Some fs => _ ← N_of_any_digits fs; Some fs
           | None => Some EmptyString
           end;
      e ← match e_part with
          | Some es => parse_exponent es
          | None => Some 0
          end;
      Some (JFloat (float_of_decimal neg (Z.of_N (digits_value (digits +:+ fs)))
                      (e - Z.of_nat (String.length fs))))
  end.

Definition hex_value (c : ascii) : option N :=
  let n := N_of_ascii c in
  if is_digit c then Some (n - 48)%N
  else if ((97 <=? n) && (n <=? 102))%N then Some (n - 87)%N
  else if ((65 <=? n) && (n <=? 70))%N then Some (n - 55)%N
  else None.

(** UTF-8 encoding of a code point; a surrogate has none. *)
Definition utf8_encode (cp : N) : option string :=
  if (cp <? 128)%N then Some (String (ascii_of_N cp) EmptyString)
  else if (cp <? 2048)%N then
    Some (String (ascii_of_N (192 + cp / 64))
            (String (ascii_of_N (128 + cp mod 64)) EmptyString))
  else if ((55296 <=? cp) && (cp <=? 57343))%N then None
  else if (cp <? 65536)%N then
    Some (String (ascii_of_N (224 + cp / 4096))
            (String (ascii_of_N (128 + (cp / 64) mod 64))
               (String (ascii_of_N (128 + cp mod 64)) EmptyString)))
  else
    Some (String (ascii_of_N (240 + cp / 262144))
            (String (ascii_of_N (128 + (cp / 4096) mod 64))
               (String (ascii_of_N (128 + (cp / 64) mod 64))
                  (String (ascii_of_N (128 + cp mod 64)) EmptyString)))).

(** The UTF-16 code unit of the four hexadecimal digits of an escape. *)
Definition code_unit (h1 h2 h3 h4 : ascii) : option N :=
  a ← hex_value h1; b ← hex_value h2; c ← hex_value h3; d ← hex_value h4;
  Some (((a * 16 + b) * 16 + c) * 16 + d)%N.

Definition is_high_surrogate (u : N) : bool := ((55296 <=? u) && (u <=? 56319))%N.
Definition is_low_surrogate (u : N) : bool := ((56320 <=? u) && (u <=? 57343))%N.

(** The code point of a surrogate pair. *)
Definition pair_code_point (high low : N) : N :=
  (65536 + (high - 55296) * 1024 + (low - 56320))%N.

Definition simple_escape (e : ascii) : option ascii :=
  if Ascii.eqb e dquote then Some dquote
  else if Ascii.eqb e backslash then Some backslash
  else if Ascii.eqb e "/" then Some "/"%char
  else if Ascii.eqb e "b" then Some "008"%char
  else if Ascii.eqb e "f" then Some "012"%char
  else if Ascii.eqb e "n" then Some "010"%char
  else if Ascii.eqb e "r" then Some "013"%char
  else if Ascii.eqb e "t" then Some "009"%char
  else None.

Definition prepend (pre : string) (r : option (string * string)) : option (string * string) :=
  '(body, rest) ← r; Some (pre +:+ body, rest).

(** The body of a string literal, after its opening quote: the decoded
    string and the text after the closing quote.  A surrogate pair of
    escapes is one character; a surrogate on its own has no UTF-8 text and
    is refused here. *)
Fixpoint parse_string_body (s : string) : option (string * string) :=
  match s with
  | EmptyString => None
  | String c rest =>
      if Ascii.eqb c dquote then Some (EmptyString, rest)
      else if Ascii.eqb c backslash then
        match rest with
        | String e rest' =>
            match simple_escape e with
            | Some ch => prepend (String ch EmptyString) (parse_string_body rest')
            | None =>
                if Ascii.eqb e "u" then
                  match rest' with
                  | String h1 (String h2 (String h3 (String h4 rest''))) =>
                      match code_unit h1 h2 h3 h4 with
                      | Some u =>
                          if is_high_surrogate u then
                            match rest'' with
                            | String b (String k
                                (String l1 (String l2 (String l3 (String l4 rest3))))) =>
                                match code_unit l1 l2 l3 l4 with
                                | Some v =>
                                    if Ascii.eqb b backslash && Ascii.eqb k "u"
                                       && is_low_surrogate v
                                    then
                                      match utf8_encode (pair_code_point u v) with
                                      | Some t => prepend t (parse_string_body rest3)
                                      | None => None
                                      end
                                    else None
                                | None => None
                                end
                            | _ => None
                            end
                          else
                            match utf8_encode u with
                            | Some t => prepend t (parse_string_body rest'')
                            | None => None
                            end
                      | None => None
                      end
                  | _ => None
                  end
                else None
            end
        | EmptyString => None
        end
      else if (N_of_ascii c <? 32)%N then None
      else prepend (String c EmptyString) (parse_string_body rest)
  end.

Definition expect (word : string) (v : json) (s : string) : option (json * string) :=
  if String.prefix word s
  then Some (v, String.substring (String.length word) (String.length s - String.length word) s)
  else None.

Section parse_compound.
Variable parse_value : string → option (json * string).

(** Members of an object, after [{]: [ "k" : v ] separated by commas, up to [}]. *)
Fixpoint parse_members (fuel : nat) (s : string) : option (list (string * json) * string) :=
  match fuel with
  | O => None
  | S fuel =>
      match skip_ws s with
      | String c r =>
          if Ascii.eqb c dquote then
            '(k, r1) ← parse_string_body r;
            match skip_ws r1 with
            | String c1 r2 =>
                if Ascii.eqb c1 ":" then
                  '(v, r3) ← parse_value r2;
                  match skip_ws r3 with
                  | String c3 r4 =>
                      if Ascii.eqb c3 "," then
                        '(ms, r5) ← parse_members fuel r4; Some ((k, v) :: ms, r5)
                      else if Ascii.eqb c3 "}" then Some ([(k, v)], r4)
                      else None
                  | EmptyString => None
                  end
                else None
            | EmptyString => None
            end
          else None
      | EmptyString => None
      end
  end.

(** Elements of an array, after [[]. *)
Fixpoint parse_elements (fuel : nat) (s : string) : option (list json * string) :=
  match fuel with
  | O => None
  | S fuel =>
      '(v, r1) ← parse_value s;
      match skip_ws r1 with
      | String c r2 =>
          if Ascii.eqb c "," then
            '(vs, r3) ← parse_elements fuel r2; Some (v :: vs, r3)
          else if Ascii.eqb c "]" then Some ([v], r2)
          else None
      | EmptyString => None
      end
  end.
End parse_compound.

Fixpoint parse_value (fuel : nat) (s : string) : option (json * string) :=
  match fuel with
  | O => None
  | S fuel =>
      match skip_ws s with
      | EmptyString => None
      | String c rest =>
          if Ascii.eqb c dquote then
            '(str, r) ← parse_string_body rest; Some (JStr str, r)
          else if Ascii.eqb c "{" then
            match skip_ws rest with
            | String "}" r => Some (JObj [], r)
            | _ => '(ms, r) ← parse_members (parse_value fuel) fuel rest; Some (JObj ms, r)
            end
          else if Ascii.eqb c "[" then
            match skip_ws rest with
            | String "]" r => Some (JArr [], r)
            | _ => '(vs, r) ← parse_elements (parse_value fuel) fuel rest; Some (JArr vs, r)
            end
          else if Ascii.eqb c "n" then expect "ull" JNull rest
          else if Ascii.eqb c "t" then expect "rue" (JBool true) rest
          else if Ascii.eqb c "f" then expect "alse" (JBool false) rest
          else if Ascii.eqb c "N" then expect "aN" (JFloat NaN) rest
          else if Ascii.eqb c "I" then expect "nfinity" (JFloat (Infinity false)) rest
          else if Ascii.eqb c "-" && String.prefix "Infinity" rest
          then expect "Infinity" (JFloat (Infinity true)) rest
          else
            let '(tok, r) := span_number (String c rest) in
            v ← parse_number_token tok; Some (v, r)
      end
  end.

(** [json.loads]: one value, then nothing but white space; the literals
    [NaN], [Infinity] and [-Infinity] are read as floats.  [None] stands
    for [JSONDecodeError]. *)
Definition json_loads (s : string) : option json :=
  '(v, rest) ← parse_value (S (String.length s)) s;
  match skip_ws rest with
  | EmptyString => Some v
  | _ => None
  end.

(* ===================================================================== *)
(** ** Schemas ([src/schemas/product.py]) and the ORM model
       ([src/models/product.py]) *)
(* ===================================================================== *)

(** The values an attribute of an ORM object or an entry of [model_dump]
    can hold. *)
Inductive pyval :=
  | PyNone
  | PyStr (s : string)
  | PyFloatV (x : pyfloat)
  | PyInt (n : Z).

(** The updatable fields, in the order [ProductUpdate] declares them. *)
Inductive field := Name | Description | Price | Stock_quantity.

Global Instance field_eq_dec : EqDecision field.
Proof. solve_decision. Defined.
Global Instance pyval_eq_dec : EqDecision pyval.
Proof. solve_decision. Defined.

Definition as_str (v : json) : option string :=
  match v with JStr s => Some s | _ => None end.
(** An [int] field, validated in lax mode: an integer, a boolean, a float
    without a fractional part, a string that reads as an integer. *)
Definition as_int (v : json) : option Z :=
  match v with
  | JInt n => Some n
  | JBool b => Some (if b then 1 else 0)
  | JFloat x => float_as_int x
  | JStr s => match parse_number_token s with Some (JInt n) => Some n | _ => None end
  | _ => None
  end.

(** A [float] field, validated in lax mode: a float, an integer, a boolean,
    a string that reads as a number. *)
Definition as_float (v : json) : option pyfloat :=
  match v with
  | JFloat x => Some x
  | JInt n => float_of_Z n
  | JBool b => Some (if b then Finite false (2 ^ 52) (-52) else Finite false 0 (-1074))
  | JStr s =>
      match parse_number_token s with
      | Some (JFloat x) => Some x
      | Some (JInt n) => float_of_Z n
      | _ => None
      end
  | _ => None
  end.

(** The dict [json.loads] builds from an object: of two members with one key
    the later one stays. *)
Fixpoint dict_get (k : string) (members : list (string * json)) : option json :=
  match members with
  | [] => None
  | (k', v) :: rest =>
      match dict_get k rest with
      | Some v' => Some v'
      | None => if String.eqb k k' then Some v else None
      end
  end.

(** [len(s)] of a [str] held as its UTF-8 text: the number of characters,
    that is of bytes that do not continue a character. *)
Definition is_continuation_byte (c : ascii) : bool :=
  ((128 <=? N_of_ascii c) && (N_of_ascii c <? 192))%N.

Fixpoint str_len (s : string) : nat :=
  match s with
  | EmptyString => O
  | String c rest => if is_continuation_byte c then str_len rest else S (str_len rest)
  end.

Definition str_len_between (lo hi : nat) (s : string) : bool :=
  (Nat.leb lo (str_len s) && Nat.leb (str_len s) hi)%nat.

Module ProductCreate.
Record t := mk {
  name : string;
  description : string;
  price : pyfloat;
  stock_quantity : Z }.

(** [Field(min_length=1, max_length=255)], [Field(gt=0)], [Field(ge=0)]. *)
Definition valid (p : t) : bool :=
  str_len_between 1 255 (name p) && str_len_between 1 2000 (description p)
  && float_gt_0 (price p) && (0 <=? stock_quantity p).
End ProductCreate.

Module ProductUpdate.
(** Every field is [T | None] with default [None]; the model remembers
    which fields the request set ([model_fields_set]). *)
Record t := mk {
  name : option string;
  description : option string;
  price : option pyfloat;
  stock_quantity : option Z;
  model_fields_set : list field }.

Definition value (p : t) (f : field) : pyval :=
  match f with
  | Name => from_option PyStr PyNone (name p)
  | Description => from_option PyStr PyNone (description p)
  | Price => from_option PyFloatV PyNone (price p)
  | Stock_quantity => from_option PyInt PyNone (stock_quantity p)
  end.

(** [payload.model_dump(exclude_unset=True)]: the fields the request set,
    in declaration order, with their values. *)
Definition model_dump_exclude_unset (p : t) : list (field * pyval) :=
  filter (λ fv, fv.1 ∈ model_fields_set p)
    [(Name, value p Name); (Description, value p Description);
     (Price, value p Price); (Stock_quantity, value p Stock_quantity)].

(** One optional field of a request body: absent, [null], or a value that
    the field's type and constraint accept. [None] is a validation error. *)
Definition opt_field {A} (conv : json → option A) (ok : A → bool)
    (k : string) (body : list (string * json)) : option (bool * option A) :=
  match dict_get k body with
  | None => Some (false, None)
  | Some JNull => Some (true, None)
  | Some v => a ← conv v; if ok a then Some (true, Some a) else None
  end.

Definition set_if (b : bool) (f : field) : list field :=
  if b then [f] else [].

(** Validation of a [PUT] body: unknown keys are ignored. *)
Definition model_validate (body : json) : option t :=
  match body with
  | JObj ms =>
      '(sn, n) ← opt_field as_str (str_len_between 1 255) "name" ms;
      '(sd, d) ← opt_field as_str (str_len_between 1 2000) "description" ms;
      '(sp, p) ← opt_field as_float float_gt_0 "price" ms;
      '(ss, s) ← opt_field as_int (λ z, 0 <=? z) "stock_quantity" ms;
      Some {| name := n; description := d; price := p; stock_quantity := s;
              model_fields_set :=
                (set_if sn Name ++ set_if sd Description
                 ++ set_if sp Price ++ set_if ss Stock_quantity)%list |}
  | _ => None
  end.
End ProductUpdate.

Module Product.
(** An instance of the mapped class.  Its attributes hold whatever was
    assigned to them; [persistent] is the instance state: false for an
    object built by the constructor, true for one loaded by a session. *)
Record t := mk {
  id : string;
  name : pyval;
  description : pyval;
  price : pyval;
  stock_quantity : pyval;
  persistent : bool }.

Definition setattr (p : t) (f : field) (v : pyval) : t :=
  match f with
  | Name => mk (id p) v (description p) (price p) (stock_quantity p) (persistent p)
  | Description => mk (id p) (name p) v (price p) (stock_quantity p) (persistent p)
  | Price => mk (id p) (name p) (description p) v (stock_quantity p) (persistent p)
  | Stock_quantity => mk (id p) (name p) (description p) (price p) v (persistent p)
  end.

Definition getattr (p : t) (f : field) : pyval :=
  match f with
  | Name => name p
  | Description => description p
  | Price => price p
  | Stock_quantity => stock_quantity p
  end.
End Product.

(** A row of the [products] table: every column is [nullable=False]. *)
Record row := Row {
  row_name : string;
  row_description : string;
  row_price : pyfloat;
  row_stock_quantity : Z }.

Global Instance row_eq_dec : EqDecision row.
Proof. solve_decision. Defined.

Definition product_of_row (id : string) (r : row) : Product.t :=
  Product.mk id (PyStr (row_name r)) (PyStr (row_description r))
    (PyFloatV (row_price r)) (PyInt (row_stock_quantity r)) true.

(** The row an object is flushed to; [None] when a column would be [NULL]
    (or hold a value of another type): the statement fails. *)
Definition row_of_product (p : Product.t) : option row :=
  match Product.name p, Product.description p, Product.price p, Product.stock_quantity p with
  | PyStr n, PyStr d, PyFloatV x, PyInt s => Some (Row n d x s)
  | _, _, _, _ => None
  end.

Module ProductResponse.
Record t := mk {
  id : string;
  name : string;
  description : string;
  price : pyfloat;
  stock_quantity : Z }.

(** [ProductResponse.model_validate(product)] with [from_attributes]. *)
Definition model_validate (p : Product.t) : option t :=
  match Product.name p, Product.description p, Product.price p, Product.stock_quantity p with
  | PyStr n, PyStr d, PyFloatV x, PyInt s => Some (mk (Product.id p) n d x s)
  | PyStr n, PyStr d, PyInt x, PyInt s =>
      x' ← float_of_Z x; Some (mk (Product.id p) n d x' s)
  | _, _, _, _ => None
  end.

(** [product.model_dump_json()]: a compact object, fields in declaration
    order. *)
Definition model_dump_json (r : t) : string :=
  String "{" (json_key "id" +:+ json_string (id r)
  +:+ String "," (json_key "name" +:+ json_string (name r)
  +:+ String "," (json_key "description" +:+ json_string (description r)
  +:+ String "," (json_key "price" +:+ json_float (price r)
  +:+ String "," (json_key "stock_quantity" +:+ string_of_Z (stock_quantity r)
  +:+ "}"))))).

(** The constructor called with [data] unpacked as keyword arguments:
    [data] has to be a mapping with the five fields, each of its type;
    other keys are ignored. *)
Definition init (data : json) : option t :=
  match data with
  | JObj ms =>
      i ← dict_get "id" ms ≫= as_str;
      n ← dict_get "name" ms ≫= as_str;
      d ← dict_get "description" ms ≫= as_str;
      p ← dict_get "price" ms ≫= as_float;
      s ← dict_get "stock_quantity" ms ≫= as_int;
      Some (mk i n d p s)
  | _ => None
  end.

Definition of_row (id : string) (r : row) : t :=
  mk id (row_name r) (row_description r) (row_price r) (row_stock_quantity r).
End ProductResponse.

Global Instance ProductResponse_eq_dec : EqDecision ProductResponse.t.
Proof. solve_decision. Defined.

(* ===================================================================== *)
(** ** The world the request handlers run in *)
(* ===================================================================== *)

(** [src/config.py] *)
Record Settings := mkSettings {
  api_port : Z;
  redis_host : string;
  redis_port : Z;
  cache_ttl_seconds : Z;
  database_url : string }.

Definition default_settings : Settings :=
  mkSettings 8080 "redis" 6379 3600 "sqlite:///./products.db".

(** The Redis client.  [entries] maps a key to its value and the time it
    expires at.  A call is answered or raises: [outage n] tells whether the
    call number [n] raises (time-out, connection failure, any error). *)
Record redis := Redis {
  entries : gmap string (string * Z);
  outage : nat → bool;
  calls : nat }.

(** A client that answers every call, as [fakeredis.FakeRedis]. *)
Definition FakeRedis (e : gmap string (string * Z)) : redis :=
  Redis e (λ _, false) 0.

(** [BrokenRedis] of [tests/conftest.py]: every call raises. *)
Definition BrokenRedis : redis := Redis ∅ (λ _, true) 0.

(** What a session holds until [commit] flushes it. *)
Inductive pending_op :=
  | Insert (p : Product.t)
  | Update (p : Product.t)
  | Delete (id : string).

(** The calls the handlers make to their collaborators, in the order they
    make them. *)
Inductive event :=
  | RedisGet (key : string)
  | RedisSet (key value : string) (ex : Z)
  | RedisDelete (key : string)
  | LogWarning (msg : string)
  | DbGet (id : string)
  | DbAdd (product : Product.t)
  | DbDelete (id : string)
  | DbCommit
  | DbRollback
  | DbRefresh (id : string).

Global Instance Product_eq_dec : EqDecision Product.t.
Proof. solve_decision. Defined.
Global Instance event_eq_dec : EqDecision event.
Proof. solve_decision. Defined.

Record world := World {
  settings : Settings;
  table : gmap string row;          (* the [products] table *)
  session : list pending_op;        (* the request's SQLAlchemy session *)
  client : redis;
  clock : Z;                        (* seconds *)
  uuid_source : nat → string;       (* what [uuid.uuid4()] returns, call by call *)
  uuid_drawn : nat;
  log : list event }.

Definition set_table (t : gmap string row) (w : world) : world :=
  World (settings w) t (session w) (client w) (clock w) (uuid_source w) (uuid_drawn w) (log w).
Definition set_session (s : list pending_op) (w : world) : world :=
  World (settings w) (table w) s (client w) (clock w) (uuid_source w) (uuid_drawn w) (log w).
Definition set_client (c : redis) (w : world) : world :=
  World (settings w) (table w) (session w) c (clock w) (uuid_source w) (uuid_drawn w) (log w).
Definition set_clock (t : Z) (w : world) : world :=
  World (settings w) (table w) (session w) (client w) t (uuid_source w) (uuid_drawn w) (log w).
Definition set_uuid_drawn (n : nat) (w : world) : world :=
  World (settings w) (table w) (session w) (client w) (clock w) (uuid_source w) n (log w).
Definition set_log (l : list event) (w : world) : world :=
  World (settings w) (table w) (session w) (client w) (clock w) (uuid_source w) (uuid_drawn w) l.

(** *** Exceptions and the monad of handlers *)

Inductive exn :=
  | HTTPException (status_code : Z) (detail : string)
  | IntegrityError
  | InvalidRequestError
  | RedisError
  | ResponseError
  | JSONDecodeError
  | ValidationError
  | TypeError.

Inductive result (A : Type) :=
  | Return (a : A)
  | Raise (e : exn).
Arguments Return {A} a.
Arguments Raise {A} e.

(** A computation changes the world and returns or raises; what it did
    before it raised stays done. *)
Definition M (A : Type) : Type := world → result A * world.

Global Instance M_ret : MRet M := λ A a w, (Return a, w).
Global Instance M_bind : MBind M := λ A B f m w,
  match m w with
  | (Return a, w') => f a w'
  | (Raise e, w') => (Raise e, w')
  end.

Definition raise {A} (e : exn) : M A := λ w, (Raise e, w).

(** [try: body except Exception as exc: handler] *)
Definition try_except {A} (body : M A) (handler : exn → M A) : M A := λ w,
  match body w with
  | (Return a, w') => (Return a, w')
  | (Raise e, w') => handler e w'
  end.

Definition emit (e : event) : M unit := λ w, (Return (), set_log (log w ++ [e])%list w).

(** [logger.warning(msg, exc)]: the log keeps the format string; the
    exception given as its argument is not recorded. *)
Definition logger_warning (msg : string) : M unit := emit (LogWarning msg).

(** A call that returns or raises and leaves the world as it is. *)
Definition from_result {A} (r : result A) : M A := λ w, (r, w).

Definition lift {A} (e : exn) (o : option A) : M A :=
  match o with
  | Some a => mret a
  | None => raise e
  end.

(** *** The Redis client *)

Definition live (now : Z) (entry : string * Z) : option string :=
  if now <? entry.2 then Some entry.1 else None.

Definition called (c : redis) : redis := Redis (entries c) (outage c) (S (calls c)).

Definition client_get (key : string) : M (option string) := λ w,
  let c := client w in
  let w1 := set_client (called c) (set_log (log w ++ [RedisGet key])%list w) in
  if outage c (calls c) then (Raise RedisError, w1)
  else (Return (entries c !! key ≫= live (clock w)), w1).

(** [SET key value EX ex]; the server refuses an expire time that is not
    positive. *)
Definition client_set (key value : string) (ex : Z) : M unit := λ w,
  let c := client w in
  let w1 := set_client (called c) (set_log (log w ++ [RedisSet key value ex])%list w) in
  if outage c (calls c) then (Raise RedisError, w1)
  else if ex <=? 0 then (Raise ResponseError, w1)
  else (Return (),
        set_client (Redis (<[key := (value, clock w + ex)]> (entries c)) (outage c) (S (calls c))) w1).

Definition client_delete (key : string) : M unit := λ w,
  let c := client w in
  let w1 := set_client (called c) (set_log (log w ++ [RedisDelete key])%list w) in
  if outage c (calls c) then (Raise RedisError, w1)
  else (Return (),
        set_client (Redis (delete key (entries c)) (outage c) (S (calls c))) w1).

(** *** The SQLAlchemy session *)

Definition db_get (product_id : string) : M (option Product.t) := λ w,
  (Return (product_of_row product_id <$> table w !! product_id),
   set_log (log w ++ [DbGet product_id])%list w).

(** [db.add(product)]: a new object is inserted at the next flush, a loaded
    one updated. *)
Definition db_add (product : Product.t) : M unit := λ w,
  let op := if Product.persistent product then Update product else Insert product in
  (Return (),
   set_session (session w ++ [op])%list (set_log (log w ++ [DbAdd product])%list w)).

Definition db_delete (product : Product.t) : M unit := λ w,
  (Return (),
   set_session (session w ++ [Delete (Product.id product)])%list
     (set_log (log w ++ [DbDelete (Product.id product)])%list w)).

(** One statement of a flush; [None] when the table refuses it: a [NULL] in
    a column, a primary key that exists, an update that finds no row. *)
Definition flush_one (t : gmap string row) (op : pending_op) : option (gmap string row) :=
  match op with
  | Insert p =>
      r ← row_of_product p;
      match t !! Product.id p with
      | Some _ => None
      | None => Some (<[Product.id p := r]> t)
      end
  | Update p =>
      r ← row_of_product p;
      match t !! Product.id p with
      | Some _ => Some (<[Product.id p := r]> t)
      | None => None
      end
  | Delete id => Some (delete id t)
  end.

Fixpoint flush (t : gmap string row) (ops : list pending_op) : option (gmap string row) :=
  match ops with
  | [] => Some t
  | op :: rest => t' ← flush_one t op; flush t' rest
  end.

(** [db.commit()]: all the pending statements or none. *)
Definition db_commit : M unit := λ w,
  match flush (table w) (session w) with
  | Some t' =>
      (Return (), set_table t' (set_session [] (set_log (log w ++ [DbCommit])%list w)))
  | None =>
      (Raise IntegrityError, set_session [] (set_log (log w ++ [DbRollback])%list w))
  end.

Definition db_refresh (product : Product.t) : M Product.t := λ w,
  let w1 := set_log (log w ++ [DbRefresh (Product.id product)])%list w in
  match table w !! Product.id product with
  | Some r => (Return (product_of_row (Product.id product) r), w1)
  | None => (Raise InvalidRequestError, w1)
  end.

(** [str(uuid.uuid4())] *)
Definition uuid4 : M string := λ w,
  (Return (uuid_source w (uuid_drawn w)), set_uuid_drawn (S (uuid_drawn w)) w).

Definition get_settings : M Settings := λ w, (Return (settings w), w).

(* ===================================================================== *)
(** ** [src/services/cache_service.py] *)
(* ===================================================================== *)

Definition _cache_key (product_id : string) : string := "product:" +:+ product_id.

Definition get_product_from_cache (product_id : string) : M (option ProductResponse.t) :=
  try_except
    (cached_json ← client_get (_cache_key product_id);
     match cached_json with
     | None => mret None
     | Some EmptyString => mret None
     | Some text =>
         data ← lift JSONDecodeError (json_loads text);
         product ← lift (match data with JObj _ => ValidationError | _ => TypeError end)
                     (ProductResponse.init data);
         mret (Some product)
     end)
    (λ exc, logger_warning "Redis get failed; falling back to DB. reason=%s";; mret None).

(** The record built from a cached text by [json.loads] and the
    constructor of [ProductResponse], or the exception one of them raises. *)
Definition product_of_text (text : string) : result ProductResponse.t :=
  match json_loads text with
  | None => Raise JSONDecodeError
  | Some data =>
      match ProductResponse.init data with
      | Some product => Return product
      | None => Raise (match data with JObj _ => ValidationError | _ => TypeError end)
      end
  end.

(** [get_product_from_cache] with the construction of the record from the
    text taken as it comes: whatever it returns, whatever it raises. *)
Definition get_product_from_cache_with (construct : string → result ProductResponse.t)
    (product_id : string) : M (option ProductResponse.t) :=
  try_except
    (cached_json ← client_get (_cache_key product_id);
     match cached_json with
     | None => mret None
     | Some EmptyString => mret None
     | Some text =>
         product ← from_result (construct text);
         mret (Some product)
     end)
    (λ exc, logger_warning "Redis get failed; falling back to DB. reason=%s";; mret None).

Definition set_product_in_cache (product : ProductResponse.t) : M unit :=
  try_except
    (s ← get_settings;
     client_set (_cache_key (ProductResponse.id product))
       (ProductResponse.model_dump_json product) (cache_ttl_seconds s))
    (λ exc, logger_warning "Redis set failed; continuing without cache. reason=%s").

Definition invalidate_product_cache (product_id : string) : M unit :=
  try_except
    (client_delete (_cache_key product_id))
    (λ exc, logger_warning "Redis delete failed; continuing. reason=%s").

(* ===================================================================== *)
(** ** [src/services/product_repository.py] *)
(* ===================================================================== *)

Definition create_product (payload : ProductCreate.t) : M Product.t :=
  new_id ← uuid4;
  let product :=
    Product.mk new_id (PyStr (ProductCreate.name payload))
      (PyStr (ProductCreate.description payload))
      (PyFloatV (ProductCreate.price payload))
      (PyInt (ProductCreate.stock_quantity payload)) false in
  db_add product;;
  db_commit;;
  db_refresh product.

Definition get_product_by_id (product_id : string) : M (option Product.t) :=
  db_get product_id.

(** The loop [for field_name, value in update_values.items(): setattr(...)]. *)
Definition apply_update_values (product : Product.t) (update_values : list (field * pyval))
    : Product.t :=
  foldl (λ p fv, Product.setattr p fv.1 fv.2) product update_values.

Definition update_product (product : Product.t) (payload : ProductUpdate.t) : M Product.t :=
  let update_values := ProductUpdate.model_dump_exclude_unset payload in
  let product := apply_update_values product update_values in
  db_add product;;
  db_commit;;
  db_refresh product.

Definition delete_product (product : Product.t) : M unit :=
  db_delete product;;
  db_commit.

(* ===================================================================== *)
(** ** [src/api/products.py] *)
(* ===================================================================== *)

Definition HTTP_400_BAD_REQUEST : Z := 400.
Definition HTTP_404_NOT_FOUND : Z := 404.

Definition model_validate (product : Product.t) : M ProductResponse.t :=
  lift ValidationError (ProductResponse.model_validate product).

Definition create_product_endpoint (payload : ProductCreate.t) : M ProductResponse.t :=
  product ← create_product payload;
  response ← model_validate product;
  invalidate_product_cache (ProductResponse.id response);;
  mret response.

Definition get_product_endpoint (product_id : string) : M ProductResponse.t :=
  cached_product ← get_product_from_cache product_id;
  match cached_product with
  | Some cached => mret cached
  | None =>
      product ← get_product_by_id product_id;
      match product with
      | None => raise (HTTPException HTTP_404_NOT_FOUND "Product not found")
      | Some product =>
          response ← model_validate product;
          set_product_in_cache response;;
          mret response
      end
  end.

Definition update_product_endpoint (product_id : string) (payload : ProductUpdate.t)
    : M ProductResponse.t :=
  match ProductUpdate.model_dump_exclude_unset payload with
  | [] => raise (HTTPException HTTP_400_BAD_REQUEST "At least one field is required")
  | _ :: _ =>
      product ← get_product_by_id product_id;
      match product with
      | None => raise (HTTPException HTTP_404_NOT_FOUND "Product not found")
      | Some product =>
          updated_product ← update_product product payload;
          invalidate_product_cache product_id;;
          model_validate updated_product
      end
  end.

Definition delete_product_endpoint (product_id : string) : M unit :=
  product ← get_product_by_id product_id;
  match product with
  | None => raise (HTTPException HTTP_404_NOT_FOUND "Product not found")
  | Some product =>
      delete_product product;;
      invalidate_product_cache product_id
  end.

(* ===================================================================== *)
(** ** Requests ([src/dependencies.py], [src/main.py]) *)
(* ===================================================================== *)

(** [Depends(get_db)]: a session of its own for the request, closed when the
    handler has returned or raised. *)
Definition get_db {A} (handler : M A) : M A := λ w,
  let '(r, w') := handler (set_session [] w) in (r, set_session [] w').

Inductive request :=
  | POST_products (payload : ProductCreate.t)
  | GET_product (product_id : string)
  | PUT_product (product_id : string) (payload : ProductUpdate.t)
  | DELETE_product (product_id : string).

Inductive response := Response (status_code : Z) (body : option ProductResponse.t).

Global Instance response_eq_dec : EqDecision response.
Proof. solve_decision. Defined.

(** What the framework answers: the handler's status and value, the status
    of an [HTTPException], 500 for any other exception. *)
Definition respond {A} (status : Z) (body : A → option ProductResponse.t)
    (r : result A) : response :=
  match r with
  | Return a => Response status (body a)
  | Raise (HTTPException s _) => Response s None
  | Raise _ => Response 500 None
  end.

Definition serve (r : request) (w : world) : response * world :=
  match r with
  | POST_products payload =>
      let '(x, w') := get_db (create_product_endpoint payload) w in (respond 201 Some x, w')
  | GET_product product_id =>
      let '(x, w') := get_db (get_product_endpoint product_id) w in (respond 200 Some x, w')
  | PUT_product product_id payload =>
      let '(x, w') := get_db (update_product_endpoint product_id payload) w in
      (respond 200 Some x, w')
  | DELETE_product product_id =>
      let '(x, w') := get_db (delete_product_endpoint product_id) w in
      (respond 204 (λ _, None) x, w')
  end.

(** A run: requests, and time passing between them. *)
Inductive step :=
  | Call (r : request)
  | Elapse (seconds : N).

Fixpoint run (steps : list step) (w : world) : list response * world :=
  match steps with
  | [] => ([], w)
  | Call r :: rest =>
      let '(resp, w1) := serve r w in
      let '(resps, w2) := run rest w1 in (resp :: resps, w2)
  | Elapse s :: rest => run rest (set_clock (clock w + Z.of_N s) w)
  end.

(* ===================================================================== *)
(** ** Vocabulary of the statements *)
(* ===================================================================== *)

(** The characters of a printed integer. *)
Definition is_int_char (c : ascii) : bool := is_digit c || Ascii.eqb c "-".

(** What [json.loads] reads where [model_dump_json] wrote a float. *)
Definition json_of_float (x : pyfloat) : json :=
  if float_finite x then JFloat x else JNull.

(** The value [json.loads] reads from what [model_dump_json] writes. *)
Definition product_json (r : ProductResponse.t) : json :=
  JObj [("id", JStr (ProductResponse.id r));
        ("name", JStr (ProductResponse.name r));
        ("description", JStr (ProductResponse.description r));
        ("price", json_of_float (ProductResponse.price r));
        ("stock_quantity", JInt (ProductResponse.stock_quantity r))].

(** The text the store holds for a product and that has not expired. *)
Definition cached_text (product_id : string) (w : world) : option string :=
  entries (client w) !! _cache_key product_id ≫= live (clock w).

(** What the cache layer makes of a stored text; [None] for an empty or a
    malformed one. *)
Definition decode (text : string) : option ProductResponse.t :=
  match text with
  | EmptyString => None
  | _ => json_loads text ≫= ProductResponse.init
  end.

(** Whether the client raises at its next call. *)
Definition next_call_fails (w : world) : bool := outage (client w) (calls (client w)).

(** What [get_product_from_cache] returns. *)
Definition cache_lookup (product_id : string) (w : world) : option ProductResponse.t :=
  if next_call_fails w then None else cached_text product_id w ≫= decode.

(** Whether the body of [get_product_from_cache] raises: the client does, or
    the text it returns is malformed. *)
Definition get_raises (product_id : string) (w : world) : bool :=
  next_call_fails w
  || match cached_text product_id w with
     | Some (String _ _ as text) => bool_decide (decode text = None)
     | _ => false
     end.

Definition warn (b : bool) (msg : string) (w : world) : world :=
  if b then set_log (log w ++ [LogWarning msg])%list w else w.

(** The world after each of the three calls of the cache layer. *)
Definition after_get (product_id : string) (w : world) : world :=
  warn (get_raises product_id w) "Redis get failed; falling back to DB. reason=%s"
    (set_client (called (client w))
       (set_log (log w ++ [RedisGet (_cache_key product_id)])%list w)).

Definition set_raises (w : world) : bool :=
  next_call_fails w || (cache_ttl_seconds (settings w) <=? 0).

Definition after_set (product : ProductResponse.t) (w : world) : world :=
  let key := _cache_key (ProductResponse.id product) in
  let text := ProductResponse.model_dump_json product in
  let ex := cache_ttl_seconds (settings w) in
  let c := client w in
  let w1 := set_client (called c) (set_log (log w ++ [RedisSet key text ex])%list w) in
  if set_raises w
  then warn true "Redis set failed; continuing without cache. reason=%s" w1
  else set_client (Redis (<[key := (text, clock w + ex)]> (entries c)) (outage c) (S (calls c))) w1.

Definition after_invalidate (product_id : string) (w : world) : world :=
  let key := _cache_key product_id in
  let c := client w in
  let w1 := set_client (called c) (set_log (log w ++ [RedisDelete key])%list w) in
  if next_call_fails w
  then warn true "Redis delete failed; continuing. reason=%s" w1
  else set_client (Redis (delete key (entries c)) (outage c) (S (calls c))) w1.

Definition emitted (e : event) (w : world) : world :=
  set_log (log w ++ [e])%list w.

(** The object [create_product] builds and the row it is flushed to. *)
Definition new_product (new_id : string) (payload : ProductCreate.t) : Product.t :=
  Product.mk new_id (PyStr (ProductCreate.name payload))
    (PyStr (ProductCreate.description payload))
    (PyFloatV (ProductCreate.price payload))
    (PyInt (ProductCreate.stock_quantity payload)) false.

Definition new_row (payload : ProductCreate.t) : row :=
  Row (ProductCreate.name payload) (ProductCreate.description payload)
    (ProductCreate.price payload) (ProductCreate.stock_quantity payload).

(** The object [update_product] flushes. *)
Definition merged (product_id : string) (old : row) (payload : ProductUpdate.t) : Product.t :=
  apply_update_values (product_of_row product_id old)
    (ProductUpdate.model_dump_exclude_unset payload).

(** *** The durable store alone *)

(** The answer to a request that the durable store alone dictates, and the
    table after the request. *)
Definition db_response (r : request) (w : world) : response :=
  match r with
  | POST_products payload =>
      let new_id := uuid_source w (uuid_drawn w) in
      match table w !! new_id with
      | Some _ => Response 500 None
      | None => Response 201 (Some (ProductResponse.of_row new_id (new_row payload)))
      end
  | GET_product product_id =>
      match table w !! product_id with
      | Some r => Response 200 (Some (ProductResponse.of_row product_id r))
      | None => Response 404 None
      end
  | PUT_product product_id payload =>
      match ProductUpdate.model_dump_exclude_unset payload with
      | [] => Response 400 None
      | _ :: _ =>
          match table w !! product_id with
          | None => Response 404 None
          | Some old =>
              match row_of_product (merged product_id old payload) with
              | None => Response 500 None
              | Some new => Response 200 (Some (ProductResponse.of_row product_id new))
              end
          end
      end
  | DELETE_product product_id =>
      match table w !! product_id with
      | None => Response 404 None
      | Some _ => Response 204 None
      end
  end.

Definition db_table (r : request) (w : world) : gmap string row :=
  match r with
  | POST_products payload =>
      let new_id := uuid_source w (uuid_drawn w) in
      match table w !! new_id with
      | Some _ => table w
      | None => <[new_id := new_row payload]> (table w)
      end
  | GET_product _ => table w
  | PUT_product product_id payload =>
      match ProductUpdate.model_dump_exclude_unset payload, table w !! product_id with
      | _ :: _, Some old =>
          match row_of_product (merged product_id old payload) with
          | None => table w
          | Some new => <[product_id := new]> (table w)
          end
      | _, _ => table w
      end
  | DELETE_product product_id => delete product_id (table w)
  end.

(** *** Cache health and coherence *)

Definition healthy (c : redis) : Prop := ∀ n, outage c n = false.
Definition broken (c : redis) : Prop := ∀ n, outage c n = true.

(** A client that raises at the calls whose numbers are listed. *)
Definition FlakyRedis (failing : list nat) : redis :=
  Redis ∅ (λ n, bool_decide (n ∈ failing)) 0.

Fixpoint strip_prefix (p s : string) : option string :=
  match p, s with
  | EmptyString, _ => Some s
  | String a p', String b s' => if Ascii.eqb a b then strip_prefix p' s' else None
  | String _ _, EmptyString => None
  end.

Definition product_id_of_key (key : string) : option string :=
  strip_prefix "product:" key.

(** An entry is coherent with the table when, being live and decodable, it
    decodes to the row the table holds for its product. *)
Definition entry_ok (t : gmap string row) (now : Z) (key : string) (e : string * Z) : bool :=
  match product_id_of_key key, live now e ≫= decode with
  | Some product_id, Some cached =>
      bool_decide (ProductResponse.of_row product_id <$> t !! product_id = Some cached)
  | _, _ => true
  end.

Definition coherent (w : world) : Prop :=
  map_Forall (λ key e, entry_ok (table w) (clock w) key e = true) (entries (client w)).

(** An entry mirrors the table when, being live and under the key of a
    product, it is the text [model_dump_json] writes for the row the table
    holds for that product. *)
Definition entry_mirrors (t : gmap string row) (now : Z) (key : string) (e : string * Z)
    : bool :=
  match product_id_of_key key, live now e with
  | Some product_id, Some text =>
      match t !! product_id with
      | Some r =>
          String.eqb text
            (ProductResponse.model_dump_json (ProductResponse.of_row product_id r))
      | None => false
      end
  | _, _ => true
  end.

(** The cache holds nothing but what the service wrote from the table as it
    is now: the state the service keeps a cache in that it found empty and
    that answered every call. *)
Definition cache_mirrors_store (w : world) : Prop :=
  map_Forall (λ key e, entry_mirrors (table w) (clock w) key e = true) (entries (client w)).

(** Two worlds with the same durable store, clock, settings and identifiers
    to come. *)
Definition same_store (w1 w2 : world) : Prop :=
  settings w1 = settings w2 ∧ table w1 = table w2 ∧ clock w1 = clock w2
  ∧ uuid_source w1 = uuid_source w2 ∧ uuid_drawn w1 = uuid_drawn w2.

(** *** Reading the log *)

(** What a computation appended to the log. *)
Definition appended (w w' : world) : list event := drop (length (log w)) (log w').

Definition is_warning (e : event) : bool :=
  match e with LogWarning _ => true | _ => false end.
Definition is_redis_set (e : event) : bool :=
  match e with RedisSet _ _ _ => true | _ => false end.
Definition is_redis_delete (e : event) : bool :=
  match e with RedisDelete _ => true | _ => false end.
Definition is_db_event (e : event) : bool :=
  match e with
  | DbGet _ | DbAdd _ | DbDelete _ | DbCommit | DbRollback | DbRefresh _ => true
  | _ => false
  end.

(** Every invalidation in a trace comes after a commit, and no statement is
    sent to the durable store after it. *)
Fixpoint invalidates_after_commit (committed : bool) (trace : list event) : bool :=
  match trace with
  | [] => true
  | DbCommit :: rest => invalidates_after_commit true rest
  | RedisDelete _ :: rest =>
      committed && forallb (λ e, negb (is_db_event e)) rest
      && invalidates_after_commit committed rest
  | _ :: rest => invalidates_after_commit committed rest
  end.

(** *** Sample data *)

Definition uuids (n : nat) : string := "uuid-" +:+ string_of_N (N.of_nat n).

Definition empty_world (c : redis) : world :=
  World default_settings ∅ [] c 0 uuids 0 [].

(** The floats the literals [24.99], [79.50] and [39.00] denote. *)
Definition float_24_99 : pyfloat := Eval vm_compute in float_of_decimal false 2499 (-2).
Definition float_79_5 : pyfloat := Eval vm_compute in float_of_decimal false 795 (-1).
Definition float_39_0 : pyfloat := Eval vm_compute in float_of_decimal false 39 0.

(** The first sample of [seed_products]. *)
Definition mouse : ProductCreate.t :=
  ProductCreate.mk "Wireless Mouse" "Ergonomic 2.4GHz wireless mouse" float_24_99 120.

(** [{"stock_quantity": 7}], [{}] and [{"price": null}]. *)
Definition restock : ProductUpdate.t :=
  ProductUpdate.mk None None None (Some 7) [Stock_quantity].
Definition no_fields : ProductUpdate.t :=
  ProductUpdate.mk None None None None [].
Definition null_price : ProductUpdate.t :=
  ProductUpdate.mk None None None None [Price].

(** A product whose price is [1e999], which reads as infinity. *)
Definition costly_mouse : ProductCreate.t :=
  ProductCreate.mk "Wireless Mouse" "Ergonomic 2.4GHz wireless mouse" (Infinity false) 120.

Definition costly_mouse_response : ProductResponse.t :=
  ProductResponse.mk "uuid-0" "Wireless Mouse" "Ergonomic 2.4GHz wireless mouse"
    (Infinity false) 120.

(** A world with [CACHE_TTL_SECONDS=0]. *)
Definition no_expiry_world : world :=
  World (mkSettings 8080 "redis" 6379 0 "sqlite:///./products.db") ∅ [] (FakeRedis ∅) 0 uuids 0 [].

Definition mouse_response (stock : Z) : ProductResponse.t :=
  ProductResponse.mk "uuid-0" "Wireless Mouse" "Ergonomic 2.4GHz wireless mouse"
    float_24_99 stock.

(** The attribute of a response a field names. *)
Definition response_field (r : ProductResponse.t) (f : field) : pyval :=
  match f with
  | Name => PyStr (ProductResponse.name r)
  | Description => PyStr (ProductResponse.description r)
  | Price => PyFloatV (ProductResponse.price r)
  | Stock_quantity => PyInt (ProductResponse.stock_quantity r)
  end.

Definition row_field (r : row) (f : field) : pyval :=
  match f with
  | Name => PyStr (row_name r)
  | Description => PyStr (row_description r)
  | Price => PyFloatV (row_price r)
  | Stock_quantity => PyInt (row_stock_quantity r)
  end.

(** An update and a delete, each followed by a read. *)
Definition update_delete_run : list step :=
  [Call (POST_products mouse); Call (GET_product "uuid-0");
   Call (PUT_product "uuid-0" restock); Call (GET_product "uuid-0");
   Call (DELETE_product "uuid-0"); Call (GET_product "uuid-0")].

(** A run that touches every handler, with time passing. *)
Definition sample_run : list step :=
  [Call (POST_products mouse); Call (GET_product "uuid-0"); Call (GET_product "uuid-0");
   Elapse 10; Call (PUT_product "uuid-0" restock); Call (GET_product "uuid-0");
   Call (PUT_product "uuid-0" no_fields); Call (PUT_product "uuid-0" null_price);
   Elapse 4000; Call (GET_product "uuid-0");
   Call (DELETE_product "uuid-0"); Call (GET_product "uuid-0");
   Call (DELETE_product "uuid-0")].

(** A world whose table holds the mouse and whose cache holds its entry. *)
Definition warm_world : world :=
  (run [Call (POST_products mouse); Call (GET_product "uuid-0")]
     (empty_world (FakeRedis ∅))).2.

(** A hit, an update ten seconds later, and a read that fills the cache
    again. *)
Definition restock_run : list step :=
  [Call (GET_product "uuid-0"); Elapse 10; Call (PUT_product "uuid-0" restock);
   Call (GET_product "uuid-0")].

(** A world with two products, each with its entry in the cache. *)
Definition two_cached_world : world :=
  (run [Call (POST_products mouse); Call (POST_products mouse);
        Call (GET_product "uuid-0"); Call (GET_product "uuid-1")]
     (empty_world (FakeRedis ∅))).2.

Definition is_write (r : request) : bool :=
  match r with
  | POST_products _ | PUT_product _ _ => true
  | GET_product _ | DELETE_product _ => false
  end.

(** The invalidation of a request that starts in [w] is not lost on the
    read that follows: the cache answers the [DEL], or it raises at the
    [GET] after it as well. *)
Definition invalidation_effective (w : world) : Prop :=
  next_call_fails w = false ∨ outage (client w) (S (calls (client w))) = true.

(** Create, read, update behind a cache that raises at its fourth call, the
    [DEL] of the update. *)
Definition stale_update_run : list step :=
  [Call (POST_products mouse); Call (GET_product "uuid-0");
   Call (PUT_product "uuid-0" restock); Call (GET_product "uuid-0")].

(** The same with a delete in place of the update. *)
Definition stale_delete_run : list step :=
  [Call (POST_products mouse); Call (GET_product "uuid-0");
   Call (DELETE_product "uuid-0"); Call (GET_product "uuid-0")].

Definition status_of (r : response) : Z :=
  match r with Response status _ => status end.

(* ===================================================================== *)
(** ** Startup seeding ([seed_products], [count_products], [create_app]) *)
(* ===================================================================== *)

(** [len(db.execute(select(Product.id)).all())]: the number of rows. *)
Definition count_products : M nat := λ w, (Return (size (table w)), w).

(** The three objects [seed_products] builds, with the identifiers drawn for
    them; 79.50 and 39.00 are the floats 79.5 and 39.0. *)
Definition sample_products (id1 id2 id3 : string) : list Product.t :=
  [ Product.mk id1 (PyStr "Wireless Mouse") (PyStr "Ergonomic 2.4GHz wireless mouse")
      (PyFloatV float_24_99) (PyInt 120) false;
    Product.mk id2 (PyStr "Mechanical Keyboard") (PyStr "RGB backlit mechanical keyboard")
      (PyFloatV float_79_5) (PyInt 75) false;
    Product.mk id3 (PyStr "USB-C Hub") (PyStr "7-in-1 USB-C hub for laptops")
      (PyFloatV float_39_0) (PyInt 200) false ].

(** [db.add_all(products)] *)
Fixpoint db_add_all (products : list Product.t) : M unit :=
  match products with
  | [] => mret ()
  | product :: rest => db_add product;; db_add_all rest
  end.

Definition seed_products : M unit :=
  n ← count_products;
  if (0 <? n)%nat then mret ()
  else
    id1 ← uuid4;
    id2 ← uuid4;
    id3 ← uuid4;
    db_add_all (sample_products id1 id2 id3);;
    db_commit.

(** The part of [create_app] that touches the store: a session of its own,
    closed when [seed_products] has returned or raised. *)
Definition create_app_seed : M unit := get_db seed_products.

(** The rows the three samples are flushed to. *)
Definition sample_rows : list row :=
  [ Row "Wireless Mouse" "Ergonomic 2.4GHz wireless mouse" float_24_99 120;
    Row "Mechanical Keyboard" "RGB backlit mechanical keyboard" float_79_5 75;
    Row "USB-C Hub" "7-in-1 USB-C hub for laptops" float_39_0 200 ].

(* ===================================================================== *)
(** ** The constraints of the schemas on the fields *)
(* ===================================================================== *)

(** The constraint the schemas put on a field, on the value of an attribute. *)
Definition field_ok (f : field) (v : pyval) : bool :=
  match f, v with
  | Name, PyStr s => str_len_between 1 255 s
  | Description, PyStr s => str_len_between 1 2000 s
  | Price, PyFloatV x => float_gt_0 x
  | Stock_quantity, PyInt n => 0 <=? n
  | _, _ => false
  end.

Definition all_fields : list field := [Name; Description; Price; Stock_quantity].

Definition row_valid (r : row) : bool :=
  forallb (λ f, field_ok f (row_field r f)) all_fields.

(** An update payload whose values, where it has any, meet the constraints. *)
Definition update_valid (p : ProductUpdate.t) : bool :=
  forallb (λ f, match ProductUpdate.value p f with
                | PyNone => true
                | v => field_ok f v
                end) all_fields.

Definition request_valid (r : request) : bool :=
  match r with
  | POST_products payload => ProductCreate.valid payload
  | PUT_product _ payload => update_valid payload
  | GET_product _ | DELETE_product _ => true
  end.

Definition step_valid (s : step) : bool :=
  match s with
  | Call r => request_valid r
  | Elapse _ => true
  end.

Definition table_valid (t : gmap string row) : Prop :=
  map_Forall (λ _ r, row_valid r = true) t.

(* ===================================================================== *)
(** ** More vocabulary *)
(* ===================================================================== *)

Definition is_redis_event (e : event) : bool :=
  match e with
  | RedisGet _ | RedisSet _ _ _ | RedisDelete _ => true
  | _ => false
  end.

Definition is_redis_get (e : event) : bool :=
  match e with RedisGet _ => true | _ => false end.

(** The statements that change the durable store, and what ends them. *)
Definition is_db_write (e : event) : bool :=
  match e with
  | DbAdd _ | DbDelete _ | DbCommit | DbRollback | DbRefresh _ => true
  | _ => false
  end.

(** The product a request is about; for a create, the identifier it draws. *)
Definition target (r : request) (w : world) : string :=
  match r with
  | POST_products _ => uuid_source w (uuid_drawn w)
  | GET_product product_id | PUT_product product_id _ | DELETE_product product_id => product_id
  end.

(** Every entry of the cache expires within the configured time from now. *)
Definition expires_within_ttl (w : world) : Prop :=
  map_Forall (λ _ (e : string * Z), e.2 ≤ clock w + Z.max 0 (cache_ttl_seconds (settings w)))
    (entries (client w)).


(** A text as [set_product_in_cache] writes it for a record with a finite
    price: it decodes, and it is the text [model_dump_json] gives for the
    record it decodes to. *)
Definition written_text (text : string) : bool :=
  match decode text with
  | Some product =>
      float_finite (ProductResponse.price product)
      && String.eqb text (ProductResponse.model_dump_json product)
  | None => false
  end.

(** Every text the cache holds is one the service wrote. *)
Definition entries_well_formed (w : world) : Prop :=
  map_Forall (λ _ (e : string * Z), written_text e.1 = true) (entries (client w)).

(** A log without a warning. *)
Definition quiet (w : world) : Prop :=
  forallb (λ e, negb (is_warning e)) (log w) = true.

(** Prices that are finite floats: in a row, in the payload of a request,
    in every row of the table. *)
Definition row_finite (r : row) : bool := float_finite (row_price r).

Definition request_finite (r : request) : bool :=
  match r with
  | POST_products payload => float_finite (ProductCreate.price payload)
  | PUT_product _ payload =>
      match ProductUpdate.price payload with
      | Some x => float_finite x
      | None => true
      end
  | GET_product _ | DELETE_product _ => true
  end.

Definition step_finite (s : step) : bool :=
  match s with
  | Call r => request_finite r
  | Elapse _ => true
  end.

Definition prices_finite (t : gmap string row) : Prop :=
  map_Forall (λ _ r, row_finite r = true) t.

(* ===================================================================== *)
(** * Properties *)
(* ===================================================================== *)

(** ** Strings *)

Lemma append_nil_l (b : string) : EmptyString +:+ b = b.
Proof. reflexivity. Qed.

Lemma append_cons (x : ascii) (a b : string) : String x a +:+ b = String x (a +:+ b).
Proof. reflexivity. Qed.

Ltac norm_append := rewrite ?append_cons, ?append_nil_l.

Lemma append_assoc (a b c : string) : (a +:+ b) +:+ c = a +:+ (b +:+ c).
Proof. induction a as [|x a IH]; norm_append; [reflexivity | by f_equal]. Qed.

Lemma string_length_app a b :
  String.length (a +:+ b) = (String.length a + String.length b)%nat.
Proof. induction a as [|x a IH]; norm_append; cbn [String.length]; [done | by rewrite IH]. Qed.

Lemma string_forall_app p a b :
  string_forall p (a +:+ b) = string_forall p a && string_forall p b.
Proof.
  induction a as [|x a IH]; norm_append; simpl; [reflexivity|].
  rewrite IH. by destruct (p x).
Qed.

Lemma string_forall_impl (p q : ascii → bool) s :
  (∀ c, p c = true → q c = true) → string_forall p s = true → string_forall q s = true.
Proof.
  intros Hpq. induction s as [|x s IH]; simpl; [done|].
  intros [Hx Hs]%andb_prop. rewrite (Hpq _ Hx). simpl. by apply IH.
Qed.

Lemma split_on_none p s :
  string_forall (λ c, negb (p c)) s = true → split_on p s = (s, None).
Proof.
  induction s as [|x s IH]; simpl; [done|].
  intros [Hx Hs]%andb_prop. apply negb_true_iff in Hx. rewrite Hx, (IH Hs). done.
Qed.

Lemma split_on_some p a c b :
  string_forall (λ c, negb (p c)) a = true → p c = true →
  split_on p (a +:+ String c b) = (a, Some b).
Proof.
  intros Ha Hc. induction a as [|x a IH]; norm_append; simpl in *.
  - by rewrite Hc.
  - apply andb_prop in Ha as [Hx Ha]. apply negb_true_iff in Hx.
    rewrite Hx, (IH Ha). done.
Qed.

Lemma span_number_app tok c rest :
  string_forall is_number_char tok = true → is_number_char c = false →
  span_number (tok +:+ String c rest) = (tok, String c rest).
Proof.
  intros Ht Hc. induction tok as [|x tok IH]; norm_append; simpl in *.
  - by rewrite Hc.
  - apply andb_prop in Ht as [Hx Ht]. rewrite Hx, (IH Ht). done.
Qed.

(** ** Floats *)

Lemma pow2_pos x : 0 < 2 ^ x ∨ (x < 0 ∧ 2 ^ x = 0).
Proof.
  destruct (Z.lt_ge_cases x 0) as [Hx|Hx].
  - right. split; [done|]. by apply Z.pow_neg_r.
  - left. by apply Z.pow_pos_nonneg.
Qed.

Lemma pow2_le_iff l n d :
  pow2_le l n d = true ↔ d * 2 ^ Z.max 0 l ≤ n * 2 ^ Z.max 0 (- l).
Proof.
  unfold pow2_le. destruct (Z.leb_spec 0 l).
  - rewrite Z.max_r, Z.max_l by lia. rewrite Z.leb_le. simpl. lia.
  - rewrite Z.max_l, Z.max_r by lia. rewrite Z.leb_le. simpl. lia.
Qed.

Lemma pow2_le_scale l n d t : 0 < t → pow2_le l (n * t) (d * t) = pow2_le l n d.
Proof.
  intros Ht. apply eq_true_iff_eq. rewrite !pow2_le_iff.
  replace (d * t * 2 ^ Z.max 0 l) with (d * 2 ^ Z.max 0 l * t) by lia.
  replace (n * t * 2 ^ Z.max 0 (- l)) with (n * 2 ^ Z.max 0 (- l) * t) by lia.
  symmetry. by apply Z.mul_le_mono_pos_r.
Qed.

Lemma pow2_le_mono l l' n d :
  0 < n → 0 < d → l' ≤ l → pow2_le l n d = true → pow2_le l' n d = true.
Proof.
  intros Hn Hd Hl. rewrite !pow2_le_iff. intros H.
  (* multiply the hypothesis by 2^(max 0 (-l')) * ... : go through a common scale *)
  assert (2 ^ Z.max 0 l' * 2 ^ Z.max 0 (- l) ≤ 2 ^ Z.max 0 l * 2 ^ Z.max 0 (- l')) as Hp.
  { rewrite <- !Z.pow_add_r by lia. apply Z.pow_le_mono_r; lia. }
  assert (0 < 2 ^ Z.max 0 l') by (apply Z.pow_pos_nonneg; lia).
  assert (0 < 2 ^ Z.max 0 l) by (apply Z.pow_pos_nonneg; lia).
  assert (0 < 2 ^ Z.max 0 (- l')) by (apply Z.pow_pos_nonneg; lia).
  assert (0 < 2 ^ Z.max 0 (- l)) by (apply Z.pow_pos_nonneg; lia).
  apply (Z.mul_le_mono_pos_r _ _ (2 ^ Z.max 0 (- l))); [done|].
  transitivity (d * (2 ^ Z.max 0 l * 2 ^ Z.max 0 (- l'))); [nia|].
  transitivity (n * 2 ^ Z.max 0 (- l) * 2 ^ Z.max 0 (- l')); [|nia].
  replace (d * (2 ^ Z.max 0 l * 2 ^ Z.max 0 (- l')))
    with (d * 2 ^ Z.max 0 l * 2 ^ Z.max 0 (- l')) by lia.
  apply Z.mul_le_mono_nonneg_r; lia.
Qed.

Lemma ilog2_ratio_spec n d :
  0 < n → 0 < d →
  pow2_le (ilog2_ratio n d) n d = true ∧ pow2_le (ilog2_ratio n d + 1) n d = false.
Proof.
  intros Hn Hd.
  destruct (Z.log2_spec n Hn) as [Ha1 Ha2]. destruct (Z.log2_spec d Hd) as [Hb1 Hb2].
  pose proof (Z.log2_nonneg n). pose proof (Z.log2_nonneg d).
  set (a := Z.log2 n) in *. set (b := Z.log2 d) in *.
  assert (pow2_le (a - b - 1) n d = true) as Hlow.
  { apply pow2_le_iff.
    destruct (Z.le_gt_cases 0 (a - b - 1)).
    - rewrite Z.max_r, Z.max_l by lia. simpl.
      assert (d * 2 ^ (a - b - 1) < 2 ^ Z.succ b * 2 ^ (a - b - 1)).
      { apply Z.mul_lt_mono_pos_r; [apply Z.pow_pos_nonneg; lia|done]. }
      rewrite <- Z.pow_add_r in * by lia. replace (Z.succ b + (a - b - 1)) with a in * by lia. lia.
    - rewrite Z.max_l, Z.max_r by lia. simpl.
      assert (2 ^ a * 2 ^ (- (a - b - 1)) ≤ n * 2 ^ (- (a - b - 1))).
      { apply Z.mul_le_mono_nonneg_r; [apply Z.pow_nonneg; lia|done]. }
      rewrite <- Z.pow_add_r in * by lia.
      replace (a + - (a - b - 1)) with (Z.succ b) in * by lia. lia. }
  assert (pow2_le (a - b + 1) n d = false) as Hhigh.
  { apply not_true_iff_false. rewrite pow2_le_iff.
    destruct (Z.le_gt_cases 0 (a - b + 1)).
    - rewrite Z.max_r, Z.max_l by lia. simpl.
      assert (2 ^ b * 2 ^ (a - b + 1) ≤ d * 2 ^ (a - b + 1)).
      { apply Z.mul_le_mono_nonneg_r; [apply Z.pow_nonneg; lia|done]. }
      rewrite <- Z.pow_add_r in * by lia. replace (b + (a - b + 1)) with (Z.succ a) in * by lia. lia.
    - rewrite Z.max_l, Z.max_r by lia. simpl.
      assert (n * 2 ^ (- (a - b + 1)) < 2 ^ Z.succ a * 2 ^ (- (a - b + 1))).
      { apply Z.mul_lt_mono_pos_r; [apply Z.pow_pos_nonneg; lia|done]. }
      rewrite <- Z.pow_add_r in * by lia.
      replace (Z.succ a + - (a - b + 1)) with b in * by lia. lia. }
  unfold ilog2_ratio. fold a b. cbv zeta.
  destruct (pow2_le (a - b) n d) eqn:Hmid.
  - by split.
  - split; [done|]. by replace (a - b - 1 + 1) with (a - b) by lia.
Qed.

Lemma ilog2_ratio_unique l n d :
  0 < n → 0 < d →
  pow2_le l n d = true → pow2_le (l + 1) n d = false → ilog2_ratio n d = l.
Proof.
  intros Hn Hd H1 H2. destruct (ilog2_ratio_spec n d Hn Hd) as [G1 G2].
  destruct (Z.lt_trichotomy (ilog2_ratio n d) l) as [Hlt|[Heq|Hgt]]; [|done|].
  - rewrite (pow2_le_mono l (ilog2_ratio n d + 1) n d) in G2; [done..|lia|done].
  - rewrite (pow2_le_mono (ilog2_ratio n d) (l + 1) n d) in H2; [done..|lia|done].
Qed.

Lemma ilog2_ratio_scale n d t :
  0 < n → 0 < d → 0 < t → ilog2_ratio (n * t) (d * t) = ilog2_ratio n d.
Proof.
  intros Hn Hd Ht. destruct (ilog2_ratio_spec n d Hn Hd) as [G1 G2].
  apply ilog2_ratio_unique; [nia | nia | by rewrite pow2_le_scale..].
Qed.

Lemma round_half_even_scale num den t :
  0 < den → 0 < t → round_half_even (num * t) (den * t) = round_half_even num den.
Proof.
  intros Hd Ht. unfold round_half_even.
  rewrite Z.div_mul_cancel_r by lia. rewrite Z.mul_mod_distr_r by lia.
  set (r := num mod den).
  assert ((2 * (r * t) <? den * t) = (2 * r <? den)) as ->.
  { apply eq_true_iff_eq. rewrite !Z.ltb_lt. nia. }
  assert ((den * t <? 2 * (r * t)) = (den <? 2 * r)) as ->.
  { apply eq_true_iff_eq. rewrite !Z.ltb_lt. nia. }
  done.
Qed.

Lemma round_ratio_scale neg n d t :
  0 ≤ n → 0 < d → 0 < t → round_ratio neg (n * t) (d * t) = round_ratio neg n d.
Proof.
  intros Hn Hd Ht. unfold round_ratio.
  destruct (Z.eqb_spec n 0) as [->|Hn0]; [done|].
  destruct (Z.eqb_spec (n * t) 0) as [E|_]; [nia|].
  rewrite ilog2_ratio_scale by lia.
  set (e := Z.max (-1074) (ilog2_ratio n d - 52)).
  destruct (Z.leb_spec 0 e).
  - replace (d * t * 2 ^ e) with (d * 2 ^ e * t) by lia.
    rewrite round_half_even_scale; [done| |done].
    apply Z.mul_pos_pos; [done|]. by apply Z.pow_pos_nonneg.
  - replace (n * t * 2 ^ (- e)) with (n * 2 ^ (- e) * t) by lia.
    by rewrite round_half_even_scale.
Qed.

Lemma round_half_even_exact m t : 0 < t → round_half_even (m * t) t = m.
Proof.
  intros Ht. unfold round_half_even.
  rewrite Z.div_mul, Z.mod_mul by lia.
  destruct (Z.ltb_spec (2 * 0) t); [done|lia].
Qed.

Lemma canonical_spec m e :
  canonical m e = true ↔
  0 ≤ m < 2 ^ 53 ∧ -1074 ≤ e ≤ 971 ∧ (e = -1074 ∨ 2 ^ 52 ≤ m).
Proof.
  unfold canonical. rewrite !andb_true_iff, orb_true_iff.
  rewrite !Z.leb_le, Z.ltb_lt, Z.eqb_eq. tauto.
Qed.

(** A float written out in full reads back as itself. *)
Lemma round_ratio_exact neg m e :
  canonical m e = true → 0 < m →
  round_ratio neg (if 0 <=? e then m * 2 ^ e else m) (if 0 <=? e then 1 else 2 ^ (- e))
  = Finite neg m e.
Proof.
  intros (Hm & He & Hnorm)%canonical_spec Hpos.
  destruct (Z.log2_spec m Hpos) as [Ha1 Ha2]. pose proof (Z.log2_nonneg m) as Ha0.
  set (a := Z.log2 m) in *.
  assert (a ≤ 52) as Ha52.
  { destruct (Z.le_gt_cases a 52); [done|].
    assert (2 ^ 53 ≤ 2 ^ a) by (apply Z.pow_le_mono_r; lia). lia. }
  assert (e = -1074 ∨ a = 52) as Hnorm'.
  { destruct Hnorm as [?|Hfull]; [by left|right].
    destruct (Z.le_gt_cases 52 a); [lia|].
    assert (2 ^ Z.succ a ≤ 2 ^ 52) by (apply Z.pow_le_mono_r; lia). lia. }
  set (n := if 0 <=? e then m * 2 ^ e else m).
  set (d := if 0 <=? e then 1 else 2 ^ (- e)).
  assert (0 < n) as Hn.
  { unfold n. destruct (Z.leb_spec 0 e); [|done].
    apply Z.mul_pos_pos; [done|]. by apply Z.pow_pos_nonneg. }
  assert (0 < d) as Hd.
  { unfold d. destruct (Z.leb_spec 0 e); [done|]. apply Z.pow_pos_nonneg; lia. }
  assert (∀ l, pow2_le l n d = true ↔ l ≤ a + e) as Hle.
  { intros l. rewrite pow2_le_iff.
    assert (d * 2 ^ Z.max 0 l ≤ n * 2 ^ Z.max 0 (- l)
            ↔ 2 ^ (Z.max 0 l + Z.max 0 (- e)) ≤ m * 2 ^ (Z.max 0 (- l) + Z.max 0 e)) as ->.
    { unfold n, d. rewrite !Z.pow_add_r by lia. destruct (Z.leb_spec 0 e).
      - rewrite (Z.max_l 0 (- e)), (Z.max_r 0 e) by lia. simpl (2 ^ 0). lia.
      - rewrite (Z.max_r 0 (- e)), (Z.max_l 0 e) by lia. simpl (2 ^ 0). lia. }
    set (x := Z.max 0 l + Z.max 0 (- e)). set (y := Z.max 0 (- l) + Z.max 0 e).
    assert (x - y = l - e) as Hxy by lia.
    assert (0 ≤ x ∧ 0 ≤ y) as [Hx Hy] by lia.
    split.
    - intros H. destruct (Z.le_gt_cases l (a + e)); [done|exfalso].
      assert (m * 2 ^ y < 2 ^ Z.succ a * 2 ^ y).
      { apply Z.mul_lt_mono_pos_r; [by apply Z.pow_pos_nonneg|done]. }
      rewrite <- Z.pow_add_r in * by lia.
      assert (2 ^ (Z.succ a + y) ≤ 2 ^ x) by (apply Z.pow_le_mono_r; lia). lia.
    - intros H.
      assert (2 ^ a * 2 ^ y ≤ m * 2 ^ y).
      { apply Z.mul_le_mono_nonneg_r; [by apply Z.pow_nonneg|done]. }
      rewrite <- Z.pow_add_r in * by lia.
      assert (2 ^ x ≤ 2 ^ (a + y)) by (apply Z.pow_le_mono_r; lia). lia. }
  assert (ilog2_ratio n d = a + e) as Hlog.
  { apply ilog2_ratio_unique; [done..| |].
    - apply Hle. lia.
    - apply not_true_iff_false. rewrite Hle. lia. }
  unfold round_ratio. destruct (Z.eqb_spec n 0); [lia|].
  rewrite Hlog. assert (Z.max (-1074) (a + e - 52) = e) as -> by lia.
  assert ((if 0 <=? e then round_half_even n (d * 2 ^ e)
           else round_half_even (n * 2 ^ (- e)) d) = m) as ->.
  { unfold n, d. destruct (Z.leb_spec 0 e).
    - rewrite Z.mul_1_l. apply round_half_even_exact. by apply Z.pow_pos_nonneg.
    - apply round_half_even_exact. apply Z.pow_pos_nonneg; lia. }
  destruct (Z.eqb_spec m (2 ^ 53)); [lia|].
  destruct (Z.ltb_spec 971 e); [lia|done].
Qed.

Lemma float_of_decimal_exact m e :
  canonical m e = true → 0 < m →
  float_of_decimal false (exact_decimal m e).1 (exact_decimal m e).2 = Finite false m e.
Proof.
  intros Hc Hm. pose proof (round_ratio_exact false m e Hc Hm) as Hex.
  unfold exact_decimal, float_of_decimal.
  destruct (Z.leb_spec 0 e) as [He|He]; cbn [fst snd].
  - simpl (0 <=? 0). cbv iota. simpl (10 ^ 0). by rewrite Z.mul_1_r.
  - destruct (Z.leb_spec 0 e); [lia|].
    rewrite <- Hex.
    replace (10 ^ (- e)) with (2 ^ (- e) * 5 ^ (- e)).
    + apply round_ratio_scale; [lia| |]; apply Z.pow_pos_nonneg; lia.
    + rewrite <- Z.pow_mul_l. done.
Qed.

Lemma round_ratio_sign neg n d :
  round_ratio neg n d
  = match round_ratio false n d with
    | Finite _ m e => Finite neg m e
    | Infinity _ => Infinity neg
    | NaN => NaN
    end.
Proof.
  unfold round_ratio. destruct (n =? 0); [done|].
  by destruct (971 <? _).
Qed.

Lemma float_of_decimal_sign neg m k :
  float_of_decimal neg m k
  = match float_of_decimal false m k with
    | Finite _ m e => Finite neg m e
    | Infinity _ => Infinity neg
    | NaN => NaN
    end.
Proof. unfold float_of_decimal. destruct (0 <=? k); apply round_ratio_sign. Qed.

(** Trailing zeros of the digits go into the exponent. *)
Lemma float_of_decimal_tenfold neg c k j :
  0 ≤ c → 0 ≤ j → float_of_decimal neg (c * 10 ^ j) (k - j) = float_of_decimal neg c k.
Proof.
  intros Hc Hj. unfold float_of_decimal.
  assert (0 < 10 ^ j) by (by apply Z.pow_pos_nonneg).
  destruct (Z.leb_spec 0 k) as [Hk|Hk], (Z.leb_spec 0 (k - j)) as [Hkj|Hkj]; try lia.
  - f_equal. rewrite <- Z.mul_assoc, <- Z.pow_add_r by lia. f_equal. f_equal. lia.
  - replace (c * 10 ^ j) with (c * 10 ^ k * 10 ^ (- (k - j))).
    + rewrite <- (Z.mul_1_l (10 ^ (- (k - j)))) at 2.
      apply round_ratio_scale; [nia|lia|]. apply Z.pow_pos_nonneg; lia.
    + rewrite <- Z.mul_assoc, <- Z.pow_add_r by lia. f_equal. f_equal. lia.
  - replace (10 ^ (- (k - j))) with (10 ^ (- k) * 10 ^ j).
    + apply round_ratio_scale; [lia| |done]. apply Z.pow_pos_nonneg; lia.
    + rewrite <- Z.pow_add_r by lia. f_equal. lia.
Qed.

Lemma shortest_from_reads_back m e fuel : ∀ digits ck,
  shortest_from m e fuel digits = Some ck → reads_back m e ck = true.
Proof.
  induction fuel as [|fuel IH]; intros digits ck; cbn [shortest_from]; [done|].
  destruct (candidate m e digits) as [ck'|] eqn:Hc; [|apply IH].
  intros [= <-]. unfold candidate in Hc.
  destruct (scaled_rem _ _ _) as [r den].
  destruct (_ || _); cbv beta iota zeta in Hc;
    repeat match type of Hc with
           | context [reads_back m e ?a] => destruct (reads_back m e a) eqn:?
           end; by simplify_eq.
Qed.

(** What is printed for a float reads back as the float. *)
Lemma shortest_decimal_reads_back m e :
  canonical m e = true → 0 < m →
  0 < (shortest_decimal m e).1
  ∧ float_of_decimal false (shortest_decimal m e).1 (shortest_decimal m e).2
    = Finite false m e.
Proof.
  intros Hc Hm. unfold shortest_decimal.
  destruct (shortest_from m e 17 1) as [ck|] eqn:Hs.
  - apply shortest_from_reads_back in Hs. unfold reads_back in Hs.
    apply andb_prop in Hs as [H1 H2]. apply Z.ltb_lt in H1.
    by apply bool_decide_eq_true_1 in H2.
  - split; [|by apply float_of_decimal_exact].
    unfold exact_decimal. destruct (Z.leb_spec 0 e); cbn [fst];
      (apply Z.mul_pos_pos; [done|]); apply Z.pow_pos_nonneg; lia.
Qed.

(** ** Numbers in JSON text *)

Lemma uint_digits d : string_forall is_digit (NilEmpty.string_of_uint d) = true.
Proof. induction d; simpl; auto. Qed.

Lemma to_uint_nonnil n : N.to_uint n ≠ Decimal.Nil.
Proof. destruct n; [done | apply Unsigned.to_uint_nonnil]. Qed.

Lemma string_of_N_digits n : string_forall is_digit (string_of_N n) = true.
Proof.
  unfold string_of_N, NilZero.string_of_uint.
  destruct (N.to_uint n) eqn:E; try (rewrite <- E; apply uint_digits); done.
Qed.

Lemma string_of_N_cons n : ∃ c t, string_of_N n = String c t ∧ is_digit c = true.
Proof.
  pose proof (string_of_N_digits n) as H.
  unfold string_of_N, NilZero.string_of_uint in *.
  pose proof (to_uint_nonnil n).
  destruct (N.to_uint n); try done; simpl in *; eauto.
Qed.

(** *** Digits *)

Lemma digits_value_acc_uint d : ∀ acc,
  digits_value_acc (NilEmpty.string_of_uint d) (Npos acc) = Npos (Pos.of_uint_acc d acc).
Proof.
  induction d as [|d IH|d IH|d IH|d IH|d IH|d IH|d IH|d IH|d IH|d IH]; intros acc;
    cbn [NilEmpty.string_of_uint digits_value_acc Pos.of_uint_acc]; [done|..];
    rewrite <- IH; f_equal;
    match goal with
    | |- context [digit_value ?c] =>
        let v := eval vm_compute in (digit_value c) in change (digit_value c) with v
    end; lia.
Qed.

Lemma digits_value_uint d :
  digits_value_acc (NilEmpty.string_of_uint d) 0 = Pos.of_uint d.
Proof.
  induction d as [|d IH|d IH|d IH|d IH|d IH|d IH|d IH|d IH|d IH|d IH];
    cbn [NilEmpty.string_of_uint digits_value_acc Pos.of_uint]; [done|exact IH|..];
    rewrite <- digits_value_acc_uint; reflexivity.
Qed.

Lemma string_of_N_nilempty n : string_of_N n = NilEmpty.string_of_uint (N.to_uint n).
Proof.
  unfold string_of_N, NilZero.string_of_uint. pose proof (to_uint_nonnil n).
  by destruct (N.to_uint n).
Qed.

Lemma digits_value_string_of_N n : digits_value (string_of_N n) = n.
Proof.
  unfold digits_value. rewrite string_of_N_nilempty, digits_value_uint.
  apply DecimalN.Unsigned.of_to.
Qed.

Lemma N_of_any_digits_string n : N_of_any_digits (string_of_N n) = Some n.
Proof.
  unfold N_of_any_digits. rewrite string_of_N_digits, digits_value_string_of_N.
  by destruct (string_of_N_cons n) as (c & t & -> & _).
Qed.

(** The digits of a positive number do not start with a zero. *)
Lemma string_of_pos_head p :
  ∃ c t, string_of_N (Npos p) = String c t ∧ is_digit c = true ∧ Ascii.eqb c "0" = false.
Proof.
  rewrite string_of_N_nilempty.
  assert (N.to_uint (Npos p) = Decimal.nzhead (N.to_uint (Npos p))) as Hhead.
  { assert (N.to_uint (Npos p) = Decimal.unorm (N.to_uint (Npos p))) as Hnorm.
    { rewrite <- DecimalN.Unsigned.to_of. by rewrite DecimalN.Unsigned.of_to. }
    rewrite Hnorm at 1. apply DecimalFacts.unorm_nzhead. intros Hnil.
    apply DecimalFacts.unorm_0 in Hnil. rewrite <- Hnorm in Hnil.
    by apply (DecimalPos.Unsigned.to_uint_nonzero p). }
  pose proof (DecimalFacts.nzhead_nonzero (N.to_uint (Npos p))) as Hnz. rewrite <- Hhead in Hnz.
  pose proof (to_uint_nonnil (Npos p)) as Hnn.
  destruct (N.to_uint (Npos p)) as [|d|d|d|d|d|d|d|d|d|d]; [done| |..];
    [by destruct (Hnz d)|..]; cbn [NilEmpty.string_of_uint]; by eexists _, _.
Qed.

Lemma N_of_digits_string n : N_of_digits (string_of_N n) = Some n.
Proof.
  destruct n as [|p]; [reflexivity|].
  pose proof (N_of_any_digits_string (Npos p)) as Hany.
  destruct (string_of_pos_head p) as (c & t & E & _ & Hc). rewrite E in *.
  unfold N_of_digits. rewrite Hc. by destruct t.
Qed.

Lemma digits_value_acc_app a b acc :
  digits_value_acc (a +:+ b) acc = digits_value_acc b (digits_value_acc a acc).
Proof.
  revert acc. induction a as [|c a IH]; intros acc; norm_append; cbn [digits_value_acc].
  - done.
  - apply IH.
Qed.

Lemma digits_value_acc_zeros n acc :
  digits_value_acc (zeros n) acc = (acc * 10 ^ N.of_nat n)%N.
Proof.
  revert acc. induction n as [|n IH]; intros acc; cbn [zeros digits_value_acc].
  - simpl. lia.
  - rewrite IH. change (digit_value "0") with 0%N.
    rewrite Nat2N.inj_succ, N.pow_succ_r by lia. lia.
Qed.

Lemma digits_value_leading_zeros n s :
  digits_value (String "0" (zeros n +:+ s)) = digits_value s.
Proof.
  unfold digits_value. cbn [digits_value_acc]. change (digit_value "0") with 0%N.
  rewrite digits_value_acc_app, digits_value_acc_zeros. f_equal; lia.
Qed.

Lemma string_forall_zeros n : string_forall is_digit (zeros n) = true.
Proof. induction n; [done|exact IHn]. Qed.

Lemma zeros_length n : String.length (zeros n) = n.
Proof. induction n; cbn [zeros String.length]; [done|by f_equal]. Qed.

Lemma string_take_drop n s : string_take n s +:+ string_drop n s = s.
Proof.
  revert s. induction n as [|n IH]; intros [|c s]; cbn [string_take string_drop];
    norm_append; try done. by rewrite IH.
Qed.

Lemma string_drop_length n s :
  String.length (string_drop n s) = (String.length s - n)%nat.
Proof.
  revert s. induction n as [|n IH]; intros [|c s]; cbn [string_drop String.length];
    try done; apply IH.
Qed.

Lemma string_forall_take p n s :
  string_forall p s = true → string_forall p (string_take n s) = true.
Proof.
  revert s. induction n as [|n IH]; intros [|c s]; cbn [string_take string_forall]; try done.
  intros [-> Hs]%andb_prop. by apply IH.
Qed.

Lemma string_forall_drop p n s :
  string_forall p s = true → string_forall p (string_drop n s) = true.
Proof.
  revert s. induction n as [|n IH]; intros [|c s]; cbn [string_drop string_forall]; try done.
  intros [_ Hs]%andb_prop. by apply IH.
Qed.

Lemma int_char_facts c :
  is_int_char c = true →
  is_number_char c = true ∧ is_ws c = false ∧ is_e c = false ∧ is_dot c = false
  ∧ Ascii.eqb c dquote = false ∧ Ascii.eqb c "{" = false ∧ Ascii.eqb c "[" = false
  ∧ Ascii.eqb c "n" = false ∧ Ascii.eqb c "t" = false ∧ Ascii.eqb c "f" = false
  ∧ Ascii.eqb c "+" = false.
Proof.
  destruct c as [[] [] [] [] [] [] [] []]; vm_compute; intros; try discriminate; repeat split.
Qed.

Lemma digit_facts c :
  is_digit c = true → is_int_char c = true ∧ Ascii.eqb c "-" = false.
Proof.
  destruct c as [[] [] [] [] [] [] [] []]; vm_compute; intros; try discriminate; repeat split.
Qed.

Lemma string_of_Z_chars z : string_forall is_int_char (string_of_Z z) = true.
Proof.
  assert (Hd : ∀ n, string_forall is_int_char (string_of_N n) = true).
  { intros n. eapply string_forall_impl; [|apply string_of_N_digits].
    intros c Hc. by apply digit_facts. }
  destruct z; simpl; [done | apply Hd | apply Hd].
Qed.

Lemma string_of_Z_cons z : ∃ c t, string_of_Z z = String c t ∧ is_int_char c = true.
Proof.
  destruct z as [|p|p]; simpl.
  - by exists "0"%char, EmptyString.
  - destruct (string_of_N_cons (Npos p)) as (c & t & -> & Hc).
    exists c, t. split; [done|]. by apply digit_facts.
  - by eexists _, _.
Qed.

Lemma split_minus_string_of_Z z :
  ∃ neg n, split_minus (string_of_Z z) = (neg, string_of_N n) ∧ apply_sign neg n = z.
Proof.
  destruct z as [|p|p].
  - by exists false, 0%N.
  - exists false, (Npos p). split; [|done]. cbn [string_of_Z].
    destruct (string_of_N_cons (Npos p)) as (c & t & E & Hc). rewrite E.
    cbn [split_minus]. apply digit_facts in Hc as [_ ->]. done.
  - by exists true, (Npos p).
Qed.

Lemma parse_exponent_string_of_Z z : parse_exponent (string_of_Z z) = Some z.
Proof.
  destruct z as [|p|p].
  - reflexivity.
  - cbn [string_of_Z]. destruct (string_of_N_cons (Npos p)) as (c & t & E & Hc).
    rewrite E. cbn [parse_exponent]. apply digit_facts in Hc as [Hc ->].
    apply int_char_facts in Hc as (_ & _ & _ & _ & _ & _ & _ & _ & _ & _ & ->).
    rewrite <- E, N_of_any_digits_string. done.
  - cbn [string_of_Z parse_exponent]. change (Ascii.eqb "-" "-") with true.
    cbv iota. rewrite N_of_any_digits_string. done.
Qed.

Lemma no_e_in_int s :
  string_forall is_int_char s = true → string_forall (λ c, negb (is_e c)) s = true.
Proof.
  apply string_forall_impl. intros c Hc.
  apply int_char_facts in Hc as (_ & _ & -> & _). done.
Qed.

Lemma no_dot_in_int s :
  string_forall is_int_char s = true → string_forall (λ c, negb (is_dot c)) s = true.
Proof.
  apply string_forall_impl. intros c Hc.
  apply int_char_facts in Hc as (_ & _ & _ & -> & _). done.
Qed.

Lemma parse_number_token_int z : parse_number_token (string_of_Z z) = Some (JInt z).
Proof.
  unfold parse_number_token.
  rewrite (split_on_none is_e) by apply no_e_in_int, string_of_Z_chars.
  rewrite (split_on_none is_dot) by apply no_dot_in_int, string_of_Z_chars.
  destruct (split_minus_string_of_Z z) as (neg & n & -> & <-).
  rewrite N_of_digits_string. done.
Qed.

(** *** Floats in JSON text *)

Lemma append_nil_r (a : string) : a +:+ EmptyString = a.
Proof. induction a as [|x a IH]; norm_append; [done|by f_equal]. Qed.

Lemma is_digit_facts c :
  is_digit c = true →
  is_e c = false ∧ is_dot c = false ∧ Ascii.eqb c "-" = false ∧ is_number_char c = true.
Proof.
  destruct c as [[] [] [] [] [] [] [] []]; vm_compute; intros; try discriminate; repeat split.
Qed.

Lemma digits_no_e s :
  string_forall is_digit s = true → string_forall (λ c, negb (is_e c)) s = true.
Proof. apply string_forall_impl. intros c Hc. by apply is_digit_facts in Hc as (-> & _). Qed.

Lemma digits_no_dot s :
  string_forall is_digit s = true → string_forall (λ c, negb (is_dot c)) s = true.
Proof. apply string_forall_impl. intros c Hc. by apply is_digit_facts in Hc as (_ & -> & _). Qed.

Lemma digits_number_chars s :
  string_forall is_digit s = true → string_forall is_number_char s = true.
Proof. apply string_forall_impl. intros c Hc. by apply is_digit_facts in Hc as (_ & _ & _ & ->). Qed.

Lemma N_of_any_digits_digits c t :
  string_forall is_digit (String c t) = true →
  N_of_any_digits (String c t) = Some (digits_value (String c t)).
Proof. intros H. unfold N_of_any_digits. by rewrite H. Qed.

Lemma N_of_digits_head c t :
  string_forall is_digit (String c t) = true →
  t = EmptyString ∨ Ascii.eqb c "0" = false →
  N_of_digits (String c t) = Some (digits_value (String c t)).
Proof.
  intros Hd Hc. unfold N_of_digits. destruct t as [|c' t].
  - by apply N_of_any_digits_digits.
  - destruct Hc as [?|Hc]; [done|]. rewrite Hc. by apply N_of_any_digits_digits.
Qed.

(** A number text is read as the float of its digits. *)
Lemma parse_number_token_text neg c t fp ex :
  string_forall is_digit (String c t) = true →
  t = EmptyString ∨ Ascii.eqb c "0" = false →
  (∀ f, fp = Some f → string_forall is_digit f = true ∧ f ≠ EmptyString) →
  is_Some fp ∨ is_Some ex →
  parse_number_token
    (sign_text neg +:+ (String c t +:+ (fraction_text fp +:+ exponent_text ex)))
  = Some (JFloat (float_of_decimal neg
                    (Z.of_N (digits_value (String c t +:+ default EmptyString fp)))
                    (default 0 ex - Z.of_nat (String.length (default EmptyString fp))))).
Proof.
  intros Hip Hhead Hfp Hfloat.
  assert (is_digit c = true) as Hc by (cbn [string_forall] in Hip; by apply andb_prop in Hip as []).
  destruct (is_digit_facts c Hc) as (_ & _ & Hminus & _).
  set (ip := String c t) in *.
  assert (string_forall (λ x, negb (is_dot x)) (sign_text neg +:+ ip) = true) as Hnodot.
  { rewrite string_forall_app, (digits_no_dot ip Hip). by destruct neg. }
  assert (string_forall (λ x, negb (is_e x)) ((sign_text neg +:+ ip) +:+ fraction_text fp)
          = true) as Hnoe.
  { rewrite !string_forall_app, (digits_no_e ip Hip).
    assert (string_forall (λ x, negb (is_e x)) (sign_text neg) = true) as -> by by destruct neg.
    destruct fp as [f|]; [|done]. cbn [fraction_text from_option string_forall].
    destruct (Hfp f eq_refl) as [Hf _]. by rewrite (digits_no_e f Hf). }
  unfold parse_number_token.
  rewrite <- !append_assoc.
  assert (split_on is_e (((sign_text neg +:+ ip) +:+ fraction_text fp) +:+ exponent_text ex)
          = ((sign_text neg +:+ ip) +:+ fraction_text fp, string_of_Z <$> ex)) as ->.
  { destruct ex as [z|]; cbn [exponent_text from_option fmap option_fmap option_map].
    - by apply split_on_some.
    - rewrite append_nil_r. by apply split_on_none. }
  assert (split_on is_dot ((sign_text neg +:+ ip) +:+ fraction_text fp)
          = (sign_text neg +:+ ip, fp)) as ->.
  { destruct fp as [f|]; cbn [fraction_text from_option].
    - by apply split_on_some.
    - rewrite append_nil_r. by apply split_on_none. }
  assert (split_minus (sign_text neg +:+ ip) = (neg, ip)) as ->.
  { destruct neg; [done|]. unfold sign_text, ip. norm_append. cbn [split_minus].
    by rewrite Hminus. }
  subst ip. cbv beta iota. rewrite (N_of_digits_head c t Hip Hhead). cbn [mbind option_bind].
  assert (∀ A (x y : A), match fp, string_of_Z <$> ex with
                         | None, None => x
                         | _, _ => y
                         end = y) as ->.
  { intros A x y. destruct Hfloat as [[f ->]|[z ->]]; [done|by destruct fp]. }
  assert (match fp with
          | Some fs => _ ← N_of_any_digits fs; Some fs
          | None => Some EmptyString
          end = Some (default EmptyString fp)) as ->.
  { destruct fp as [f|]; [|done]. destruct (Hfp f eq_refl) as [Hf Hne].
    destruct f as [|x f]; [done|]. by rewrite (N_of_any_digits_digits x f Hf). }
  cbn [mbind option_bind].
  assert (match string_of_Z <$> ex with
          | Some es => parse_exponent es
          | None => Some 0
          end = Some (default 0 ex)) as ->.
  { destruct ex as [z|]; [|done]. apply parse_exponent_string_of_Z. }
  reflexivity.
Qed.

Lemma Z_of_N_pow10 (n : N) (j : nat) :
  Z.of_N (n * 10 ^ N.of_nat j) = Z.of_N n * 10 ^ Z.of_nat j.
Proof. rewrite N2Z.inj_mul, N2Z.inj_pow, nat_N_Z. done. Qed.

Section decimal_text.
Variables (neg : bool) (p : positive) (c : ascii) (t : string) (k : Z).
Hypothesis Hdig : string_forall is_digit (String c t) = true.
Hypothesis Hc0 : Ascii.eqb c "0" = false.
Hypothesis Hval : digits_value (String c t) = Npos p.

Let len := Z.of_nat (String.length (String c t)).

(** [1234e7] is written [12340000000.0] *)
Lemma parse_integral :
  0 ≤ k →
  parse_number_token (sign_text neg +:+ (String c t +:+ zeros (Z.to_nat k) +:+ ".0"))
  = Some (JFloat (float_of_decimal neg (Zpos p) k)).
Proof using Hdig Hc0 Hval.
  intros Hk.
  pose proof (parse_number_token_text neg c (t +:+ zeros (Z.to_nat k)) (Some "0") None) as H.
  cbn [fraction_text exponent_text from_option default id] in H.
  rewrite append_nil_r, <- append_cons in H.
  rewrite <- (append_assoc (String c t)). rewrite H; clear H.
  - f_equal. f_equal. unfold digits_value.
    rewrite !digits_value_acc_app, digits_value_acc_zeros.
    cbn [digits_value_acc] in *. change (digit_value "0") with 0%N.
    fold (digits_value (String c t)). unfold digits_value in Hval. cbn [digits_value_acc] in Hval.
    rewrite Hval.
    rewrite <- (float_of_decimal_tenfold neg (Zpos p) k (k + 1)) by lia.
    unfold id. cbn [digits_value_acc String.length]. change (digit_value "0") with 0%N.
    f_equal; [|lia].
    rewrite N.add_0_r, N.mul_comm, N2Z.inj_mul, Z_of_N_pow10, Z2Nat.id by lia.
    rewrite Z.pow_add_r by lia. simpl (Z.of_N 10). simpl (10 ^ 1). lia.
  - rewrite string_forall_app, Hdig. apply string_forall_zeros.
  - by right.
  - by intros f [= <-].
  - left. by eexists.
Qed.

(** [1234e-2] is written [12.34] *)
Lemma parse_fractional :
  0 < len + k → k < 0 →
  parse_number_token
    (sign_text neg +:+ (string_take (Z.to_nat (len + k)) (String c t)
                        +:+ String "." (string_drop (Z.to_nat (len + k)) (String c t))))
  = Some (JFloat (float_of_decimal neg (Zpos p) k)).
Proof using Hdig Hc0 Hval.
  intros Hkk Hk. destruct (Z.to_nat (len + k)) as [|n] eqn:En; [lia|].
  cbn [string_take string_drop].
  assert (string_forall is_digit t = true) as Ht.
  { cbn [string_forall] in Hdig. by apply andb_prop in Hdig as []. }
  assert (is_digit c = true) as Hc.
  { cbn [string_forall] in Hdig. by apply andb_prop in Hdig as []. }
  pose proof (string_drop_length n t) as Hdrop.
  pose proof (parse_number_token_text neg c (string_take n t) (Some (string_drop n t)) None) as H.
  cbn [fraction_text exponent_text from_option default id] in H.
  rewrite append_nil_r in H. rewrite H; clear H.
  - f_equal. f_equal. norm_append. rewrite string_take_drop, Hval.
    f_equal. rewrite Hdrop. unfold len in *. cbn [String.length] in *. lia.
  - cbn [string_forall]. rewrite Hc. by apply string_forall_take.
  - by right.
  - intros f [= <-]. split; [by apply string_forall_drop|].
    intros Hnil. rewrite Hnil in Hdrop. unfold len in *. cbn [String.length] in *. lia.
  - left. by eexists.
Qed.

(** [1234e-6] is written [0.001234] *)
Lemma parse_leading_zeros :
  len + k ≤ 0 →
  parse_number_token
    (sign_text neg +:+ String "0" (String "." (zeros (Z.to_nat (- (len + k))) +:+ String c t)))
  = Some (JFloat (float_of_decimal neg (Zpos p) k)).
Proof using Hdig Hc0 Hval.
  intros Hkk.
  pose proof (parse_number_token_text neg "0" EmptyString
                (Some (zeros (Z.to_nat (- (len + k))) +:+ String c t)) None) as H.
  cbn [fraction_text exponent_text from_option default id] in H.
  rewrite append_nil_r in H. norm_append. rewrite append_cons, append_nil_l in H.
  rewrite H; clear H.
  - do 2 f_equal. norm_append. rewrite digits_value_leading_zeros, Hval. f_equal.
    rewrite string_length_app, zeros_length. unfold len in *. lia.
  - done.
  - by left.
  - intros f [= <-]. split.
    + rewrite string_forall_app, string_forall_zeros. done.
    + by destruct (zeros _).
  - left. by eexists.
Qed.

(** [1e30] and [1234e30], written [1.234e33] *)
Lemma parse_scientific :
  parse_number_token
    (sign_text neg +:+ match t with
                       | EmptyString => String c t +:+ String "e" (string_of_Z (len + k - 1))
                       | String b rest =>
                           String c (String "." (String b rest))
                           +:+ String "e" (string_of_Z (len + k - 1))
                       end)
  = Some (JFloat (float_of_decimal neg (Zpos p) k)).
Proof using Hdig Hc0 Hval.
  assert (is_digit c = true) as Hc.
  { cbn [string_forall] in Hdig. by apply andb_prop in Hdig as []. }
  destruct t as [|b rest] eqn:Et.
  - pose proof (parse_number_token_text neg c EmptyString None (Some (len + k - 1))) as H.
    cbn [fraction_text exponent_text from_option default id String.length] in H.
    rewrite append_nil_l in H. rewrite H; clear H.
    + do 2 f_equal. rewrite append_nil_r, Hval. f_equal.
      unfold len. cbn [String.length]. lia.
    + done.
    + by left.
    + done.
    + right. by eexists.
  - pose proof (parse_number_token_text neg c EmptyString (Some (String b rest))
                  (Some (len + k - 1))) as H.
    cbn [fraction_text exponent_text from_option default id] in H.
    rewrite !append_cons, append_nil_l in H. norm_append. rewrite H; clear H.
    + do 2 f_equal. norm_append. rewrite Hval. f_equal.
      unfold len. cbn [String.length]. lia.
    + cbn [string_forall]. by rewrite Hc.
    + by left.
    + intros f [= <-]. split; [|done]. cbn [string_forall] in Hdig.
      by apply andb_prop in Hdig as [].
    + left. by eexists.
Qed.
End decimal_text.

(** The text of a decimal is read as the float of the decimal. *)
Lemma parse_format_decimal neg p k :
  parse_number_token (sign_text neg +:+ format_decimal (string_of_Z (Zpos p)) k)
  = Some (JFloat (float_of_decimal neg (Zpos p) k)).
Proof.
  change (string_of_Z (Zpos p)) with (string_of_N (Npos p)).
  pose proof (digits_value_string_of_N (Npos p)) as Hval.
  pose proof (string_of_N_digits (Npos p)) as Hdig.
  destruct (string_of_pos_head p) as (c & t & E & Hc & Hc0).
  rewrite E in *. unfold format_decimal.
  set (len := Z.of_nat (String.length (String c t))).
  destruct (Z.leb_spec 0 k), (Z.leb_spec (len + k) 16), (Z.ltb_spec 0 (len + k)),
    (Z.ltb_spec (-5) (len + k)), (Z.leb_spec (len + k) 0); cbn [andb]; try lia;
    first [ by apply parse_integral
          | by apply parse_fractional
          | by apply parse_leading_zeros
          | by apply parse_scientific ].
Qed.

Lemma float_of_decimal_zero neg k : float_of_decimal neg 0 k = Finite neg 0 (-1074).
Proof. unfold float_of_decimal. by destruct (0 <=? k). Qed.

(** What [model_dump_json] writes for a finite float, [json.loads] reads
    back as that float. *)
Lemma parse_number_token_float x :
  float_finite x = true → parse_number_token (json_float x) = Some (JFloat x).
Proof.
  destruct x as [neg m e| |]; [|done..]. cbn [float_finite json_float]. intros Hcan.
  rewrite Hcan. fold (sign_text neg).
  pose proof Hcan as (Hm & He & Hnorm)%canonical_spec.
  destruct (Z.eqb_spec m 0) as [->|Hm0].
  - pose proof (parse_number_token_text neg "0" EmptyString (Some "0") None) as H.
    change ("0" +:+ (fraction_text (Some "0") +:+ exponent_text None)) with "0.0" in H.
    rewrite H; [|done|by left|by intros f [= <-]|left; by eexists].
    do 2 f_equal. change (Z.of_N (digits_value ("0" +:+ default EmptyString (Some "0")))) with 0.
    rewrite float_of_decimal_zero. f_equal. lia.
  - destruct (shortest_decimal_reads_back m e Hcan) as [Hpos Hback]; [lia|].
    destruct (shortest_decimal m e) as [c k]. cbn [fst snd] in *.
    destruct c as [|p|p]; [lia| |lia].
    rewrite parse_format_decimal, float_of_decimal_sign, Hback. done.
Qed.

Lemma format_decimal_chars c t k :
  string_forall is_digit (String c t) = true →
  string_forall is_number_char (format_decimal (String c t) k) = true
  ∧ ∃ t', format_decimal (String c t) k = String c t' ∨ format_decimal (String c t) k = String "0" t'.
Proof.
  intros Hdig. pose proof (digits_number_chars _ Hdig) as Hnum.
  assert (∀ z, string_forall is_number_char (string_of_Z z) = true) as Hz.
  { intros z. eapply string_forall_impl; [|apply string_of_Z_chars].
    intros x Hx. by apply int_char_facts in Hx as (-> & _). }
  unfold format_decimal. set (kk := Z.of_nat (String.length (String c t)) + k).
  destruct ((0 <=? k) && (kk <=? 16)); [|destruct ((0 <? kk) && (kk <=? 16)) eqn:B2;
    [|destruct ((-5 <? kk) && (kk <=? 0))]].
  - split; [|norm_append; eauto].
    rewrite !string_forall_app, Hnum, (digits_number_chars _ (string_forall_zeros _)). done.
  - apply andb_prop in B2 as [Hkk _]. apply Z.ltb_lt in Hkk.
    destruct (Z.to_nat kk) as [|n] eqn:En; [lia|]. cbn [string_take string_drop].
    split; [|norm_append; eauto].
    cbn [string_forall] in Hnum. apply andb_prop in Hnum as [Hc Ht].
    rewrite string_forall_app. cbn [string_forall]. rewrite Hc. cbn [andb].
    rewrite (string_forall_take _ _ _ Ht), (string_forall_drop _ _ _ Ht). done.
  - split; [|eauto]. cbn [string_forall]. change (is_number_char "0") with true.
    change (is_number_char ".") with true. cbn [andb].
    rewrite string_forall_app, Hnum, (digits_number_chars _ (string_forall_zeros _)). done.
  - destruct t as [|b rest]; norm_append.
    + split; [|eauto]. cbn [string_forall] in *. apply andb_prop in Hnum as [-> _].
      change (is_number_char "e") with true. cbn [andb]. apply Hz.
    + split; [|eauto]. cbn [string_forall] in *.
      apply andb_prop in Hnum as [-> [-> Hrest]%andb_prop].
      change (is_number_char ".") with true. cbn [andb].
      rewrite string_forall_app, Hrest. cbn [string_forall].
      change (is_number_char "e") with true. cbn [andb]. apply Hz.
Qed.

Lemma json_float_text x :
  float_finite x = true →
  string_forall is_number_char (json_float x) = true
  ∧ ∃ c t, json_float x = String c t ∧ is_int_char c = true.
Proof.
  destruct x as [neg m e| |]; [|done..]. cbn [float_finite json_float]. intros Hcan.
  rewrite Hcan. destruct (Z.eqb_spec m 0) as [->|Hm0].
  - destruct neg; split; try done; by eexists _, _.
  - destruct (shortest_decimal_reads_back m e Hcan) as [Hpos _].
    { apply canonical_spec in Hcan. lia. }
    destruct (shortest_decimal m e) as [d k]. cbn [fst snd] in *.
    destruct d as [|p|p]; [lia| |lia].
    change (string_of_Z (Zpos p)) with (string_of_N (Npos p)).
    pose proof (string_of_N_digits (Npos p)) as Hdig.
    destruct (string_of_pos_head p) as (c & t & E & Hc & _). rewrite E in *.
    destruct (format_decimal_chars c t k Hdig) as [Hchars [t' Hhead]].
    apply digit_facts in Hc as [Hc _].
    unfold sign_text. destruct neg; norm_append.
    + split; [by cbn [string_forall]; rewrite Hchars|by eexists _, _].
    + split; [done|]. destruct Hhead as [->| ->]; by eexists _, _.
Qed.

Lemma json_float_chars x :
  float_finite x = true → string_forall is_number_char (json_float x) = true.
Proof. intros H. by apply json_float_text. Qed.

Lemma json_float_cons x :
  float_finite x = true → ∃ c t, json_float x = String c t ∧ is_int_char c = true.
Proof. intros H. by apply json_float_text. Qed.

Lemma json_float_not_finite x : float_finite x = false → json_float x = "null".
Proof. destruct x as [neg m e| |]; cbn [float_finite json_float]; [|done..]. by intros ->. Qed.

Lemma prefix_app word rest : String.prefix word (word +:+ rest) = true.
Proof.
  induction word as [|c word IH]; norm_append; cbn [String.prefix]; [by destruct rest|].
  by destruct (ascii_dec c c).
Qed.

Lemma substring_app word rest :
  String.substring (String.length word)
    (String.length (word +:+ rest) - String.length word) (word +:+ rest) = rest.
Proof.
  induction word as [|c word IH]; norm_append; cbn [String.length String.substring].
  - rewrite Nat.sub_0_r. induction rest as [|c rest IH]; cbn [String.length String.substring];
      [done|by rewrite IH].
  - exact IH.
Qed.

Lemma expect_app word v rest : expect word v (word +:+ rest) = Some (v, rest).
Proof. unfold expect. by rewrite prefix_app, substring_app. Qed.

Lemma parse_value_null fuel rest :
  parse_value (S fuel) ("null" +:+ rest) = Some (JNull, rest).
Proof.
  norm_append. cbn [parse_value skip_ws]. change (is_ws "n") with false.
  cbv iota. change (Ascii.eqb "n" dquote) with false.
  change (Ascii.eqb "n" "{") with false. change (Ascii.eqb "n" "[") with false.
  change (Ascii.eqb "n" "n") with true. cbv iota. apply (expect_app "ull").
Qed.

Lemma int_char_literal c :
  is_int_char c = true → Ascii.eqb c "N" = false ∧ Ascii.eqb c "I" = false.
Proof.
  destruct c as [[] [] [] [] [] [] [] []]; vm_compute; intros; try discriminate; repeat split.
Qed.

Lemma no_infinity_prefix x s :
  Ascii.eqb x "I" = false → String.prefix "Infinity" (String x s) = false.
Proof.
  destruct x as [[] [] [] [] [] [] [] []]; vm_compute; intros; try discriminate; reflexivity.
Qed.

Lemma number_char_not_I x : is_number_char x = true → Ascii.eqb x "I" = false.
Proof.
  destruct x as [[] [] [] [] [] [] [] []]; vm_compute; intros; try discriminate; reflexivity.
Qed.

(** A number followed by a comma or a closing brace is read back whole. *)
Lemma parse_value_number fuel tok d rest :
  (∃ c t, tok = String c t ∧ is_int_char c = true) →
  string_forall is_number_char tok = true →
  is_number_char d = false → Ascii.eqb d "I" = false →
  parse_value (S fuel) (tok +:+ String d rest)
  = v ← parse_number_token tok; Some (v, String d rest).
Proof.
  intros (c & t & -> & Hc) Htok Hd HdI.
  pose proof (span_number_app _ _ rest Htok Hd) as Hspan.
  destruct (int_char_literal c Hc) as [HN HI].
  apply int_char_facts in Hc as (Hn & Hw & _ & _ & Hq & Hb & Hk & H1 & H2 & H3 & _).
  norm_append. rewrite append_cons in Hspan.
  cbn [parse_value skip_ws]. rewrite Hw, Hq, Hb, Hk, H1, H2, H3, HN, HI.
  assert (String.prefix "Infinity" (t +:+ String d rest) = false) as ->.
  { destruct t as [|x t]; norm_append; apply no_infinity_prefix; [done|].
    cbn [string_forall] in Htok. apply andb_prop in Htok as [_ [Hx _]%andb_prop].
    by apply number_char_not_I. }
  rewrite andb_false_r. rewrite Hspan. done.
Qed.

(** ** String literals *)

Lemma escape_char_parse c tail :
  parse_string_body (escape_char c +:+ tail)
  = prepend (String c EmptyString) (parse_string_body tail).
Proof. destruct c as [[] [] [] [] [] [] [] []]; reflexivity. Qed.

Lemma parse_escape s rest :
  parse_string_body (escape s +:+ String dquote rest) = Some (s, rest).
Proof.
  induction s as [|c s IH]; [reflexivity|].
  cbn [escape]. rewrite append_assoc, escape_char_parse, IH. done.
Qed.

Lemma json_string_app s rest :
  json_string s +:+ rest = String dquote (escape s +:+ String dquote rest).
Proof. unfold json_string. norm_append. by rewrite append_assoc. Qed.

Lemma json_key_app k rest :
  json_key k +:+ rest = String dquote (escape k +:+ String dquote (String ":" rest)).
Proof. unfold json_key. by rewrite append_assoc, json_string_app. Qed.

(** ** Objects *)

Lemma parse_value_string fuel s rest :
  parse_value (S fuel) (json_string s +:+ rest) = Some (JStr s, rest).
Proof.
  rewrite json_string_app. cbn [parse_value skip_ws].
  change (is_ws dquote) with false. change (Ascii.eqb dquote dquote) with true.
  cbv iota. rewrite parse_escape. done.
Qed.

Lemma parse_members_cons pv fuel k body v c3 r4 :
  pv body = Some (v, String c3 r4) →
  is_ws c3 = false →
  parse_members pv (S fuel) (json_key k +:+ body)
  = if Ascii.eqb c3 ","
    then '(ms, r5) ← parse_members pv fuel r4; Some ((k, v) :: ms, r5)
    else if Ascii.eqb c3 "}" then Some ([(k, v)], r4) else None.
Proof.
  intros Hv Hws. rewrite json_key_app. cbn [parse_members skip_ws].
  change (is_ws dquote) with false. change (Ascii.eqb dquote dquote) with true.
  cbv iota. rewrite parse_escape. cbn [mbind option_bind skip_ws].
  change (is_ws ":") with false. change (Ascii.eqb ":" ":") with true.
  cbv iota. rewrite Hv. cbn [mbind option_bind skip_ws]. rewrite Hws. done.
Qed.


Lemma parse_value_object fuel k body :
  parse_value (S fuel) (String "{" (json_key k +:+ body))
  = '(ms, r) ← parse_members (parse_value fuel) fuel (json_key k +:+ body); Some (JObj ms, r).
Proof.
  rewrite json_key_app. cbn [parse_value skip_ws].
  change (is_ws "{") with false. change (is_ws dquote) with false.
  change (Ascii.eqb "{" dquote) with false. change (Ascii.eqb "{" "{") with true.
  reflexivity.
Qed.

Lemma parse_members_dump pv fuel r :
  (∀ s rest, pv (json_string s +:+ rest) = Some (JStr s, rest)) →
  (∀ tok d rest,
     (∃ c t, tok = String c t ∧ is_int_char c = true) →
     string_forall is_number_char tok = true →
     is_number_char d = false → Ascii.eqb d "I" = false →
     pv (tok +:+ String d rest) = v ← parse_number_token tok; Some (v, String d rest)) →
  (∀ rest, pv ("null" +:+ rest) = Some (JNull, rest)) →
  parse_members pv (S (S (S (S (S fuel)))))
    (json_key "id" +:+ json_string (ProductResponse.id r)
     +:+ String "," (json_key "name" +:+ json_string (ProductResponse.name r)
     +:+ String "," (json_key "description" +:+ json_string (ProductResponse.description r)
     +:+ String "," (json_key "price" +:+ json_float (ProductResponse.price r)
     +:+ String "," (json_key "stock_quantity" +:+ string_of_Z (ProductResponse.stock_quantity r)
     +:+ "}")))))
  = Some ([("id", JStr (ProductResponse.id r));
           ("name", JStr (ProductResponse.name r));
           ("description", JStr (ProductResponse.description r));
           ("price", json_of_float (ProductResponse.price r));
           ("stock_quantity", JInt (ProductResponse.stock_quantity r))], EmptyString).
Proof.
  intros Hstr Hnum Hnull.
  assert (Hprice : ∀ rest, pv (json_float (ProductResponse.price r) +:+ String "," rest)
                           = Some (json_of_float (ProductResponse.price r), String "," rest)).
  { intros rest. unfold json_of_float.
    destruct (float_finite (ProductResponse.price r)) eqn:Hfin.
    - rewrite Hnum by (by apply json_float_cons || by apply json_float_chars || done).
      by rewrite parse_number_token_float.
    - rewrite (json_float_not_finite _ Hfin). apply Hnull. }
  assert (Hstock : pv (string_of_Z (ProductResponse.stock_quantity r) +:+ "}")
                   = Some (JInt (ProductResponse.stock_quantity r), "}")).
  { rewrite Hnum; [by rewrite parse_number_token_int | apply string_of_Z_cons | | done..].
    eapply string_forall_impl; [|apply string_of_Z_chars].
    intros c Hc. by apply int_char_facts in Hc as (-> & _). }
  rewrite (parse_members_cons pv _ "id" _ _ "," _ (Hstr _ _) eq_refl).
  change (Ascii.eqb "," ",") with true. cbv iota.
  rewrite (parse_members_cons pv _ "name" _ _ "," _ (Hstr _ _) eq_refl).
  change (Ascii.eqb "," ",") with true. cbv iota.
  rewrite (parse_members_cons pv _ "description" _ _ "," _ (Hstr _ _) eq_refl).
  change (Ascii.eqb "," ",") with true. cbv iota.
  rewrite (parse_members_cons pv _ "price" _ _ "," _ (Hprice _) eq_refl).
  change (Ascii.eqb "," ",") with true. cbv iota.
  rewrite (parse_members_cons pv _ "stock_quantity" _ _ "}" _ Hstock eq_refl).
  reflexivity.
Qed.

Lemma parse_value_dump fuel r :
  parse_value (S (S (S (S (S (S fuel)))))) (ProductResponse.model_dump_json r)
  = Some (product_json r, EmptyString).
Proof.
  unfold ProductResponse.model_dump_json, product_json.
  rewrite parse_value_object.
  rewrite (parse_members_dump _ fuel r); [reflexivity | | |].
  - intros s rest. apply parse_value_string.
  - intros tok d rest. apply parse_value_number.
  - intros rest. apply parse_value_null.
Qed.


Lemma json_loads_dump r :
  json_loads (ProductResponse.model_dump_json r) = Some (product_json r).
Proof.
  unfold json_loads.
  assert (∃ n, String.length (ProductResponse.model_dump_json r) = S (S (S (S (S n))))) as [n ->].
  { unfold ProductResponse.model_dump_json. rewrite json_key_app.
    cbn [String.length]. rewrite string_length_app.
    change (escape "id") with "id". cbn [String.length Nat.add]. eauto. }
  rewrite parse_value_dump. reflexivity.
Qed.

Lemma init_product_json r :
  ProductResponse.init (product_json r)
  = if float_finite (ProductResponse.price r) then Some r else None.
Proof.
  destruct r as [i n d x s]. unfold product_json, json_of_float. cbn [ProductResponse.price].
  by destruct (float_finite x).
Qed.

(** ** The cache layer, call by call *)

Lemma bind_eq {A B} (m : M A) (k : A → M B) (w : world) :
  (m ≫= k) w = match m w with
               | (Return a, w') => k a w'
               | (Raise e, w') => (Raise e, w')
               end.
Proof. reflexivity. Qed.

Lemma decode_cons c t : decode (String c t) = json_loads (String c t) ≫= ProductResponse.init.
Proof. reflexivity. Qed.

(** The text written for a record decodes to the record when its price is
    finite, and does not decode when it is not. *)
Lemma decode_dump_cases r :
  decode (ProductResponse.model_dump_json r)
  = if float_finite (ProductResponse.price r) then Some r else None.
Proof.
  assert (∃ c t, ProductResponse.model_dump_json r = String c t) as (c & t & E)
    by (unfold ProductResponse.model_dump_json; eauto).
  rewrite E, decode_cons, <- E, json_loads_dump. cbn [mbind option_bind].
  apply init_product_json.
Qed.

Lemma decode_dump r :
  float_finite (ProductResponse.price r) = true →
  decode (ProductResponse.model_dump_json r) = Some r.
Proof. intros H. by rewrite decode_dump_cases, H. Qed.

Lemma get_product_from_cache_eq product_id w :
  get_product_from_cache product_id w
  = (Return (cache_lookup product_id w), after_get product_id w).
Proof.
  unfold get_product_from_cache, try_except, after_get, cache_lookup, get_raises,
    cached_text, next_call_fails.
  rewrite bind_eq. unfold client_get.
  destruct (outage (client w) (calls (client w))) eqn:Hout; [reflexivity|].
  cbn [orb].
  destruct (entries (client w) !! _cache_key product_id ≫= live (clock w))
    as [[|c text]|] eqn:Htext; [reflexivity| |reflexivity].
  cbn [mbind option_bind]. rewrite decode_cons, bind_eq.
  destruct (json_loads (String c text)) as [data|] eqn:Hdata; cbn [lift mbind option_bind];
    [|reflexivity].
  unfold mret, M_ret. rewrite bind_eq.
  destruct (ProductResponse.init data) as [r|] eqn:Hr; cbn [lift]; reflexivity.
Qed.

Lemma set_product_in_cache_eq product w :
  set_product_in_cache product w = (Return (), after_set product w).
Proof.
  unfold set_product_in_cache, try_except, after_set, set_raises, next_call_fails.
  rewrite bind_eq. unfold get_settings, client_set.
  destruct (outage (client w) (calls (client w))); [reflexivity|].
  cbn [orb]. destruct (cache_ttl_seconds (settings w) <=? 0); reflexivity.
Qed.

Lemma invalidate_product_cache_eq product_id w :
  invalidate_product_cache product_id w = (Return (), after_invalidate product_id w).
Proof.
  unfold invalidate_product_cache, try_except, after_invalidate, next_call_fails, client_delete.
  destruct (outage (client w) (calls (client w))); reflexivity.
Qed.

(** ** The repository *)

Lemma apply_update_values_id p vals :
  Product.id (apply_update_values p vals) = Product.id p.
Proof.
  unfold apply_update_values. revert p.
  induction vals as [|[f v] vals IH]; intros p; cbn [foldl]; [done|].
  rewrite IH. by destruct f.
Qed.

Lemma apply_update_values_persistent p vals :
  Product.persistent (apply_update_values p vals) = Product.persistent p.
Proof.
  unfold apply_update_values. revert p.
  induction vals as [|[f v] vals IH]; intros p; cbn [foldl]; [done|].
  rewrite IH. by destruct f.
Qed.

(** ** The handlers, request by request *)

Lemma get_product_endpoint_eq product_id w :
  get_product_endpoint product_id w
  = match cache_lookup product_id w with
    | Some cached => (Return cached, after_get product_id w)
    | None =>
        let w1 := emitted (DbGet product_id) (after_get product_id w) in
        match table w !! product_id with
        | None => (Raise (HTTPException 404 "Product not found"), w1)
        | Some r =>
            (Return (ProductResponse.of_row product_id r),
             after_set (ProductResponse.of_row product_id r) w1)
        end
    end.
Proof.
  unfold get_product_endpoint. rewrite bind_eq, get_product_from_cache_eq.
  destruct (cache_lookup product_id w) as [cached|]; [reflexivity|].
  rewrite bind_eq. unfold get_product_by_id, db_get.
  assert (table (after_get product_id w) = table w) as ->.
  { unfold after_get, warn. by destruct (get_raises product_id w). }
  destruct (table w !! product_id) as [r|]; cbn [fmap option_fmap option_map]; [|reflexivity].
  rewrite bind_eq. unfold model_validate. cbn [ProductResponse.model_validate product_of_row
    Product.name Product.description Product.price Product.stock_quantity Product.id lift].
  unfold mret, M_ret. rewrite bind_eq, set_product_in_cache_eq. reflexivity.
Qed.

Ltac exec :=
  unfold get_db, create_product_endpoint, update_product_endpoint, delete_product_endpoint,
    create_product, update_product, delete_product, get_product_by_id,
    uuid4, db_get, db_add, db_delete, db_commit, db_refresh,
    model_validate, raise, mbind, M_bind, mret, M_ret;
  simpl.

Lemma create_product_endpoint_eq payload w :
  get_db (create_product_endpoint payload) w
  = let new_id := uuid_source w (uuid_drawn w) in
    let p := new_product new_id payload in
    let w2 := emitted (DbAdd p) (set_uuid_drawn (S (uuid_drawn w)) (set_session [] w)) in
    match table w !! new_id with
    | Some _ => (Raise IntegrityError, emitted DbRollback w2)
    | None =>
        (Return (ProductResponse.of_row new_id (new_row payload)),
         after_invalidate new_id
           (emitted (DbRefresh new_id)
              (set_table (<[new_id := new_row payload]> (table w)) (emitted DbCommit w2))))
    end.
Proof.
  exec. destruct (table w !! uuid_source w (uuid_drawn w)) as [old|] eqn:Hold; simpl.
  - reflexivity.
  - rewrite lookup_insert_eq. simpl. rewrite invalidate_product_cache_eq.
    unfold after_invalidate. destruct (next_call_fails _); reflexivity.
Qed.

Lemma merged_id product_id old payload : Product.id (merged product_id old payload) = product_id.
Proof. unfold merged. by rewrite apply_update_values_id. Qed.

Lemma merged_persistent product_id old payload :
  Product.persistent (merged product_id old payload) = true.
Proof. unfold merged. by rewrite apply_update_values_persistent. Qed.

Lemma model_validate_row product_id r :
  ProductResponse.model_validate (product_of_row product_id r)
  = Some (ProductResponse.of_row product_id r).
Proof. reflexivity. Qed.

Lemma update_product_endpoint_eq product_id payload w :
  get_db (update_product_endpoint product_id payload) w
  = match ProductUpdate.model_dump_exclude_unset payload with
    | [] => (Raise (HTTPException 400 "At least one field is required"), set_session [] w)
    | _ :: _ =>
        let w1 := emitted (DbGet product_id) (set_session [] w) in
        match table w !! product_id with
        | None => (Raise (HTTPException 404 "Product not found"), w1)
        | Some old =>
            let p := merged product_id old payload in
            let w2 := emitted (DbAdd p) w1 in
            match row_of_product p with
            | None => (Raise IntegrityError, emitted DbRollback w2)
            | Some new =>
                (Return (ProductResponse.of_row product_id new),
                 after_invalidate product_id
                   (emitted (DbRefresh product_id)
                      (set_table (<[product_id := new]> (table w)) (emitted DbCommit w2))))
            end
        end
    end.
Proof.
  unfold get_db, update_product_endpoint.
  destruct (ProductUpdate.model_dump_exclude_unset payload) as [|fv vals] eqn:Hdump;
    [reflexivity|].
  exec. destruct (table w !! product_id) as [old|] eqn:Hold; simpl; [|reflexivity].
  fold (merged product_id old payload).
  rewrite merged_persistent, !merged_id. simpl.
  destruct (row_of_product (merged product_id old payload)) as [new|] eqn:Hnew; simpl;
    [|reflexivity].
  rewrite !merged_id, Hold. simpl. rewrite lookup_insert_eq. simpl.
  rewrite invalidate_product_cache_eq.
  unfold after_invalidate. destruct (next_call_fails _); reflexivity.
Qed.

Lemma delete_product_endpoint_eq product_id w :
  get_db (delete_product_endpoint product_id) w
  = let w1 := emitted (DbGet product_id) (set_session [] w) in
    match table w !! product_id with
    | None => (Raise (HTTPException 404 "Product not found"), w1)
    | Some old =>
        (Return (),
         after_invalidate product_id
           (set_table (delete product_id (table w))
              (emitted DbCommit (emitted (DbDelete product_id) w1))))
    end.
Proof.
  exec. destruct (table w !! product_id) as [old|] eqn:Hold; simpl; [|reflexivity].
  rewrite invalidate_product_cache_eq.
  unfold after_invalidate. destruct (next_call_fails _); reflexivity.
Qed.

(** ** What a request leaves behind *)

Lemma serve_GET product_id w :
  serve (GET_product product_id) w
  = let '(x, w') := get_product_endpoint product_id (set_session [] w) in
    (respond 200 Some x, set_session [] w').
Proof.
  unfold serve, get_db. by destruct (get_product_endpoint product_id (set_session [] w)).
Qed.

Ltac serve_cases r w :=
  destruct r as [payload|product_id|product_id payload|product_id];
  [ unfold serve; rewrite create_product_endpoint_eq; cbv zeta;
    destruct (table w !! uuid_source w (uuid_drawn w)) as [?|] eqn:?
  | rewrite serve_GET, get_product_endpoint_eq;
    change (cache_lookup product_id (set_session [] w)) with (cache_lookup product_id w);
    change (table (set_session [] w)) with (table w); cbv zeta;
    destruct (cache_lookup product_id w) as [?|] eqn:?;
    [|destruct (table w !! product_id) as [?|] eqn:?]
  | unfold serve; rewrite update_product_endpoint_eq; cbv zeta;
    destruct (ProductUpdate.model_dump_exclude_unset payload) as [|? ?] eqn:?;
    [|destruct (table w !! product_id) as [?|] eqn:?;
      [destruct (row_of_product (merged product_id _ payload)) as [?|] eqn:?|]]
  | unfold serve; rewrite delete_product_endpoint_eq; cbv zeta;
    destruct (table w !! product_id) as [?|] eqn:? ].

Ltac unfold_after :=
  unfold after_get, after_set, after_invalidate, warn, set_raises, next_call_fails, emitted;
  cbn [settings table session client clock uuid_source uuid_drawn log
       set_table set_session set_client set_clock set_uuid_drawn set_log
       entries outage calls called fst snd];
  repeat (case_match;
    cbn [settings table session client clock uuid_source uuid_drawn log
         set_table set_session set_client set_clock set_uuid_drawn set_log
         entries outage calls called fst snd]).

(** The answer: the cached record on a hit, what the durable store dictates
    otherwise. *)
Lemma serve_response r w :
  (serve r w).1
  = match r with
    | GET_product product_id =>
        match cache_lookup product_id w with
        | Some cached => Response 200 (Some cached)
        | None => db_response r w
        end
    | _ => db_response r w
    end.
Proof.
  serve_cases r w; cbn [fst db_response respond]; simplify_eq; try reflexivity;
    repeat case_match; simplify_eq; reflexivity.
Qed.

Lemma serve_table r w : table (serve r w).2 = db_table r w.
Proof.
  serve_cases r w; cbn [snd db_table]; simplify_eq; unfold_after; simplify_eq; try reflexivity.
  by rewrite delete_id.
Qed.

Lemma serve_frame r w :
  settings (serve r w).2 = settings w ∧ clock (serve r w).2 = clock w
  ∧ uuid_source (serve r w).2 = uuid_source w ∧ session (serve r w).2 = []
  ∧ outage (client (serve r w).2) = outage (client w)
  ∧ uuid_drawn (serve r w).2
    = match r with POST_products _ => S (uuid_drawn w) | _ => uuid_drawn w end.
Proof.
  serve_cases r w; cbn [snd]; unfold_after; done.
Qed.

Lemma db_response_ext r w1 w2 : same_store w1 w2 → db_response r w1 = db_response r w2.
Proof.
  intros (_ & Ht & _ & Hs & Hd). destruct r; cbn [db_response]; by rewrite Ht, ?Hs, ?Hd.
Qed.

Lemma db_table_ext r w1 w2 : same_store w1 w2 → db_table r w1 = db_table r w2.
Proof.
  intros (_ & Ht & _ & Hs & Hd). destruct r; cbn [db_table]; by rewrite Ht, ?Hs, ?Hd.
Qed.

Lemma serve_same_store r w1 w2 :
  same_store w1 w2 → same_store (serve r w1).2 (serve r w2).2.
Proof.
  intros H. pose proof H as (H1 & H2 & H3 & H4 & H5). unfold same_store.
  destruct (serve_frame r w1) as (-> & -> & -> & _ & _ & ->).
  destruct (serve_frame r w2) as (-> & -> & -> & _ & _ & ->).
  rewrite !serve_table, (db_table_ext r w1 w2 H).
  repeat split; try done. by rewrite H5.
Qed.


(** ** Coherence of the cache with the table *)

Lemma strip_prefix_Some p s t : strip_prefix p s = Some t → s = p +:+ t.
Proof.
  revert s. induction p as [|a p IH]; intros [|b s]; cbn [strip_prefix]; norm_append;
    try congruence.
  destruct (Ascii.eqb_spec a b) as [->|]; [|done]. intros H. by rewrite (IH _ H).
Qed.

Lemma product_id_of_cache_key product_id :
  product_id_of_key (_cache_key product_id) = Some product_id.
Proof. reflexivity. Qed.

Lemma product_id_of_key_inv key product_id :
  product_id_of_key key = Some product_id → key = _cache_key product_id.
Proof. apply strip_prefix_Some. Qed.

Lemma coherent_lookup w product_id cached :
  coherent w → cache_lookup product_id w = Some cached →
  ProductResponse.of_row product_id <$> table w !! product_id = Some cached.
Proof.
  unfold coherent, cache_lookup, cached_text. intros Hco Hlook.
  destruct (next_call_fails w); [done|].
  destruct (entries (client w) !! _cache_key product_id) as [e|] eqn:He; [|done].
  cbn [mbind option_bind] in Hlook.
  specialize (Hco _ _ He). cbv beta in Hco. unfold entry_ok in Hco.
  rewrite product_id_of_cache_key, Hlook in Hco.
  by apply bool_decide_eq_true_1 in Hco.
Qed.

Lemma entry_ok_written t now product_id r ex :
  t !! product_id = Some r →
  entry_ok t now (_cache_key product_id)
    (ProductResponse.model_dump_json (ProductResponse.of_row product_id r), ex) = true.
Proof.
  intros Hr. unfold entry_ok. rewrite product_id_of_cache_key.
  unfold live. cbn [fst snd]. destruct (now <? ex); cbn [mbind option_bind]; [|done].
  rewrite decode_dump_cases. destruct (float_finite _); [|done].
  rewrite Hr. by apply bool_decide_eq_true_2.
Qed.

Lemma entries_ok_invalidated (t t' : gmap string row) now product_id
    (m : gmap string (string * Z)) :
  (∀ other, other ≠ product_id → t' !! other = t !! other) →
  map_Forall (λ key e, entry_ok t now key e = true) m →
  map_Forall (λ key e, entry_ok t' now key e = true) (delete (_cache_key product_id) m).
Proof.
  intros Ht Hm key e [Hne He]%lookup_delete_Some.
  specialize (Hm _ _ He). cbv beta in *. unfold entry_ok in *.
  destruct (product_id_of_key key) as [other|] eqn:Hkey; [|done].
  rewrite Ht; [done|]. intros ->. by apply product_id_of_key_inv in Hkey.
Qed.

Lemma entries_ok_later (t : gmap string row) now seconds (m : gmap string (string * Z)) :
  map_Forall (λ key e, entry_ok t now key e = true) m →
  map_Forall (λ key e, entry_ok t (now + Z.of_N seconds) key e = true) m.
Proof.
  intros Hm key e He. specialize (Hm _ _ He). cbv beta in *. unfold entry_ok, live in *.
  destruct (product_id_of_key key); [|done].
  destruct (now + Z.of_N seconds <? e.2) eqn:Hlive; [|done].
  assert ((now <? e.2) = true) as Hnow by (apply Z.ltb_lt in Hlive; apply Z.ltb_lt; lia).
  by rewrite Hnow in Hm.
Qed.

Lemma serve_coherent r w :
  healthy (client w) → coherent w → coherent (serve r w).2.
Proof.
  intros Hh Hco. unfold coherent in *.
  serve_cases r w; cbn [snd]; unfold_after; simplify_eq; try done;
    try (by rewrite Hh in *).
  all: try (eapply entries_ok_invalidated; [|exact Hco]; intros other Hne;
            by rewrite ?lookup_insert_ne, ?lookup_delete_ne).
  all: try (apply map_Forall_insert_2; [|done]; by apply entry_ok_written).
Qed.

(** ** A healthy cache against a cache that is down *)

Lemma cache_lookup_broken product_id w : broken (client w) → cache_lookup product_id w = None.
Proof. intros Hb. unfold cache_lookup, next_call_fails. by rewrite Hb. Qed.

Lemma serve_sim r w wb :
  same_store w wb → healthy (client w) → coherent w → broken (client wb) →
  (serve r w).1 = (serve r wb).1.
Proof.
  intros Hs Hh Hco Hb. rewrite !serve_response, <- (db_response_ext r w wb Hs).
  destruct r as [payload|product_id|product_id payload|product_id]; try reflexivity.
  rewrite (cache_lookup_broken _ wb Hb).
  destruct (cache_lookup product_id w) as [cached|] eqn:Hc; [|reflexivity].
  apply coherent_lookup in Hc; [|done]. cbn [db_response].
  destruct (table w !! product_id); by simplify_eq/=.
Qed.

Lemma run_sim steps : ∀ w wb,
  same_store w wb → healthy (client w) → coherent w → broken (client wb) →
  (run steps w).1 = (run steps wb).1.
Proof.
  induction steps as [|[r|seconds] steps IH]; intros w wb Hs Hh Hco Hb; [done| |].
  - cbn [run].
    pose proof (serve_sim r w wb Hs Hh Hco Hb) as Hresp.
    pose proof (serve_same_store r w wb Hs) as Hs'.
    pose proof (serve_coherent r w Hh Hco) as Hco'.
    destruct (serve_frame r w) as (_ & _ & _ & _ & Hout & _).
    destruct (serve_frame r wb) as (_ & _ & _ & _ & Houtb & _).
    destruct (serve r w) as [resp w1], (serve r wb) as [respb wb1]. cbn [fst snd] in *.
    specialize (IH w1 wb1 Hs').
    destruct (run steps w1) as [resps w2], (run steps wb1) as [respsb wb2]. cbn [fst snd] in *.
    rewrite Hresp, IH; [done| | |].
    + intros n. by rewrite Hout.
    + done.
    + intros n. by rewrite Houtb.
  - cbn [run]. apply IH.
    + destruct Hs as (H1 & H2 & H3 & H4 & H5). unfold same_store. cbn. by rewrite H3.
    + done.
    + unfold coherent in *. cbn. by apply entries_ok_later.
    + done.
Qed.

(** ** Reading the log of a computation *)

Lemma appended_app w w' evs : log w' = (log w ++ evs)%list → appended w w' = evs.
Proof. unfold appended. intros ->. apply drop_app_length. Qed.

Ltac world_proj :=
  cbn [settings table session client clock uuid_source uuid_drawn log
       set_table set_session set_client set_clock set_uuid_drawn set_log
       entries outage calls called fst snd].

Ltac world_proj_all :=
  cbn [settings table session client clock uuid_source uuid_drawn log
       set_table set_session set_client set_clock set_uuid_drawn set_log
       entries outage calls called fst snd ProductResponse.id ProductResponse.of_row] in *.

Ltac calc_appended :=
  repeat match goal with
  | |- context [appended ?w ?w'] =>
      first
        [ rewrite (appended_app w w' _
                     ltac:(world_proj; rewrite <- ?(assoc_L (++)%list); reflexivity))
        | rewrite (appended_app w w' [] ltac:(world_proj; by rewrite app_nil_r)) ]
  end.

Lemma hit_no_warning product_id w cached :
  cache_lookup product_id w = Some cached → get_raises product_id w = false.
Proof.
  unfold cache_lookup, get_raises. destruct (next_call_fails w); [done|]. cbn [orb].
  destruct (cached_text product_id w) as [[|c text]|]; cbn [mbind option_bind]; try done.
  intros H. apply bool_decide_eq_false_2. by rewrite H.
Qed.

(** ** Reads *)

(** C1. Read consults the cache first.  On a hit the cached record is
    returned and the durable store is not consulted.  On a miss, a product
    the store does not hold gives 404 and nothing is written to the cache; a
    product it holds is returned and a [SET] of its JSON text, under the
    product's key and with the configured expiry, is sent to the cache, which
    holds it afterwards unless the call raised. *)
Theorem read_through product_id w :
  let key := _cache_key product_id in
  let out := get_product_endpoint product_id w in
  (∃ rest, appended w out.2 = RedisGet key :: rest)
  ∧ table out.2 = table w
  ∧ match (get_product_from_cache product_id w).1 with
    | Return (Some cached) =>
        out.1 = Return cached
        ∧ forallb (λ e, negb (is_db_event e)) (appended w out.2) = true
    | Return None =>
        match table w !! product_id with
        | None =>
            out.1 = Raise (HTTPException HTTP_404_NOT_FOUND "Product not found")
            ∧ forallb (λ e, negb (is_redis_set e)) (appended w out.2) = true
            ∧ entries (client out.2) = entries (client w)
        | Some r =>
            let product := ProductResponse.of_row product_id r in
            let text := ProductResponse.model_dump_json product in
            let ex := cache_ttl_seconds (settings w) in
            out.1 = Return product
            ∧ RedisSet key text ex ∈ appended w out.2
            ∧ entries (client out.2)
              = if outage (client w) (S (calls (client w))) || (ex <=? 0)
                then entries (client w)
                else <[key := (text, clock w + ex)]> (entries (client w))
        end
    | Raise _ => False
    end.
Proof.
  cbv zeta. rewrite get_product_from_cache_eq, get_product_endpoint_eq. cbn [fst].
  destruct (cache_lookup product_id w) as [cached|] eqn:Hlook.
  - rewrite (hit_no_warning _ _ _ Hlook) || (unfold after_get; rewrite (hit_no_warning _ _ _ Hlook)).
    unfold_after. calc_appended. eauto.
  - cbv zeta. destruct (table w !! product_id) as [r|] eqn:Hrow.
    + unfold_after; calc_appended; cbn [forallb negb is_redis_set andb orb] in *;
        (split; [eauto|]); (split; [done|]); (split; [done|]);
        (split; [repeat first [apply list_elem_of_here | apply list_elem_of_further]|]);
        repeat case_match; try done; world_proj_all; congruence.
    + unfold_after; calc_appended; cbn [forallb negb is_redis_set andb orb] in *;
        (split; [eauto|]); done.
Qed.

(** C2. Against one durable store, a run with a cache that raises at every
    call gives, request by request, the answers (status and record) of the
    same run with a cache that answers every call and starts coherent with
    the store. *)
Theorem cache_transparency steps w :
  healthy (client w) → coherent w →
  (run steps w).1 = (run steps (set_client BrokenRedis w)).1.
Proof.
  intros Hh Hco. apply run_sim; [|done|done|].
  - by repeat split.
  - intros n. reflexivity.
Qed.

Lemma cache_transparency_witness :
  healthy (client warm_world) ∧ coherent warm_world
  ∧ (run sample_run warm_world).1 = (run sample_run (set_client BrokenRedis warm_world)).1.
Proof.
  assert (healthy (client warm_world)) as Hh by (intros n; reflexivity).
  assert (coherent warm_world) as Hco.
  { unfold coherent. apply (bool_decide_unpack _). vm_compute. exact I. }
  split; [exact Hh|]. split; [exact Hco|].
  exact (cache_transparency sample_run warm_world Hh Hco).
Defined.

(** ** Reads that follow a write *)

Lemma lookup_after_invalidate product_id w :
  invalidation_effective w → cache_lookup product_id (after_invalidate product_id w) = None.
Proof.
  unfold invalidation_effective, cache_lookup, cached_text, after_invalidate, next_call_fails.
  intros [Hdel|Hget].
  - rewrite Hdel. world_proj. destruct (outage (client w) (S (calls (client w)))); [done|].
    by rewrite lookup_delete_eq.
  - destruct (outage (client w) (calls (client w))); unfold warn; world_proj; by rewrite Hget.
Qed.

(** The read that follows a request whose invalidation was effective. *)
Lemma read_after_invalidate product_id w0 :
  invalidation_effective w0 →
  (serve (GET_product product_id) (after_invalidate product_id w0)).1
  = db_response (GET_product product_id) w0.
Proof.
  intros Heff. rewrite serve_response.
  rewrite (lookup_after_invalidate _ _ Heff). cbn [db_response].
  assert (table (after_invalidate product_id w0) = table w0) as Ht
    by (unfold_after; done).
  world_proj. by rewrite Ht.
Qed.

(** A write that succeeded: the world it leaves is the one its invalidation
    left, on a table that holds what it answered. *)
Lemma write_outcome r w status written :
  is_write r = true →
  (serve r w).1 = Response status (Some written) →
  ∃ w0 new,
    (serve r w).2 = after_invalidate (ProductResponse.id written) w0
    ∧ client w0 = client w
    ∧ table w0 !! ProductResponse.id written = Some new
    ∧ written = ProductResponse.of_row (ProductResponse.id written) new
    ∧ match r with
      | PUT_product product_id _ => ProductResponse.id written = product_id
      | _ => True
      end.
Proof.
  intros Hw. serve_cases r w; try discriminate Hw; cbn [fst snd respond]; intros ?; simplify_eq.
  - eexists _, _. split; [reflexivity|].
    cbn [ProductResponse.id ProductResponse.of_row]. unfold emitted. world_proj.
    by rewrite lookup_insert_eq.
  - eexists _, _. split; [reflexivity|].
    cbn [ProductResponse.id ProductResponse.of_row]. unfold emitted. world_proj.
    by rewrite lookup_insert_eq.
Qed.

Lemma invalidation_effective_ext w w0 :
  client w0 = client w → invalidation_effective w → invalidation_effective w0.
Proof. unfold invalidation_effective, next_call_fails. by intros ->. Qed.

(** C3, as the code has it.  After a Create or an Update that succeeded, the
    Read that follows returns the record just written, provided the
    invalidation was effective: the cache answered its [DEL], or raises at
    the [GET] of the Read as well.  An Update answers with the identifier it
    was given. *)
Theorem read_your_write r w status written :
  is_write r = true →
  (serve r w).1 = Response status (Some written) →
  invalidation_effective w →
  (serve (GET_product (ProductResponse.id written)) (serve r w).2).1
  = Response 200 (Some written)
  ∧ match r with
    | PUT_product product_id _ => ProductResponse.id written = product_id
    | _ => True
    end.
Proof.
  intros Hw Hresp Heff.
  destruct (write_outcome r w status written Hw Hresp) as (w0 & new & -> & Hc & Hnew & Hwr & Hid).
  split; [|exact Hid].
  rewrite read_after_invalidate by (by eapply invalidation_effective_ext).
  cbn [db_response]. by rewrite Hnew, <- Hwr.
Qed.

Lemma read_your_write_witness :
  (serve (GET_product "uuid-0")
     (serve (PUT_product "uuid-0" restock) warm_world).2).1
  = Response 200 (Some (mouse_response 7)).
Proof.
  refine (proj1 (read_your_write (PUT_product "uuid-0" restock) warm_world 200
                   (mouse_response 7) _ _ _)).
  - reflexivity.
  - vm_compute. reflexivity.
  - left. vm_compute. reflexivity.
Defined.

(** C3, as the spec words it, fails: the [DEL] of the update raises, the
    update still answers 200 with 7 in stock, and the read that follows
    answers with the cached 120. *)
Lemma stale_read_after_update :
  (run stale_update_run (empty_world (FlakyRedis [3%nat]))).1
  = [Response 201 (Some (mouse_response 120)); Response 200 (Some (mouse_response 120));
     Response 200 (Some (mouse_response 7)); Response 200 (Some (mouse_response 120))].
Proof. vm_compute. reflexivity. Qed.

(** ** Identifiers the durable store does not hold *)

(** C7, as the code has it.  For an identifier with no record in the durable
    store: Delete answers 404; Update answers 404 when its payload sets a
    field (an empty payload is refused with 400 before the store is read);
    Read answers 404 when the cache lookup misses.  After a Delete that
    succeeded, whatever the cache held, the Read that follows answers 404,
    provided the invalidation was effective. *)
Theorem not_found product_id w :
  (table w !! product_id = None →
     (cache_lookup product_id w = None →
      (serve (GET_product product_id) w).1 = Response HTTP_404_NOT_FOUND None)
     ∧ (∀ payload, ProductUpdate.model_dump_exclude_unset payload ≠ [] →
        (serve (PUT_product product_id payload) w).1 = Response HTTP_404_NOT_FOUND None)
     ∧ (serve (DELETE_product product_id) w).1 = Response HTTP_404_NOT_FOUND None)
  ∧ ((serve (DELETE_product product_id) w).1 = Response 204 None →
     invalidation_effective w →
     (serve (GET_product product_id) (serve (DELETE_product product_id) w).2).1
     = Response HTTP_404_NOT_FOUND None).
Proof.
  split.
  - intros Habsent. repeat split.
    + intros Hmiss. rewrite serve_response, Hmiss. cbn [db_response]. by rewrite Habsent.
    + intros payload Hset. rewrite serve_response. cbn [db_response]. rewrite Habsent.
      by destruct (ProductUpdate.model_dump_exclude_unset payload).
    + rewrite serve_response. cbn [db_response]. by rewrite Habsent.
  - unfold serve at 1 3. rewrite delete_product_endpoint_eq. cbv zeta.
    destruct (table w !! product_id) as [old|] eqn:Hold; cbn [fst snd respond]; [|done].
    intros _ Heff. rewrite read_after_invalidate by exact Heff.
    cbn [db_response]. unfold emitted. world_proj. by rewrite lookup_delete_eq.
Qed.

Lemma not_found_witness :
  (serve (DELETE_product "uuid-7") warm_world).1 = Response 404 None
  ∧ (serve (GET_product "uuid-0") (serve (DELETE_product "uuid-0") warm_world).2).1
    = Response 404 None.
Proof.
  split.
  - refine (proj2 (proj2 (proj1 (not_found "uuid-7" warm_world) _))).
    vm_compute. reflexivity.
  - refine (proj2 (not_found "uuid-0" warm_world) _ _).
    + vm_compute. reflexivity.
    + left. vm_compute. reflexivity.
Defined.

(** C7, as the spec words it, fails twice.  An Update with an empty payload
    at an identifier the store does not hold answers 400, not 404.  And when
    the [DEL] of a Delete raises, the Delete still answers 204 and the Read
    that follows answers 200 with the cached record. *)
Lemma found_after_delete :
  (serve (PUT_product "uuid-7" no_fields) (empty_world (FakeRedis ∅))).1
  = Response HTTP_400_BAD_REQUEST None
  ∧ (run stale_delete_run (empty_world (FlakyRedis [3%nat]))).1
    = [Response 201 (Some (mouse_response 120)); Response 200 (Some (mouse_response 120));
       Response 204 None; Response 200 (Some (mouse_response 120))].
Proof. split; vm_compute; reflexivity. Qed.

(** ** Updates *)

Lemma merged_getattr product_id old payload f :
  Product.getattr (merged product_id old payload) f
  = if decide (f ∈ ProductUpdate.model_fields_set payload)
    then ProductUpdate.value payload f
    else row_field old f.
Proof.
  unfold merged, apply_update_values, ProductUpdate.model_dump_exclude_unset.
  rewrite !filter_cons, filter_nil. cbn [fst].
  destruct (decide (Name ∈ ProductUpdate.model_fields_set payload)),
    (decide (Description ∈ ProductUpdate.model_fields_set payload)),
    (decide (Price ∈ ProductUpdate.model_fields_set payload)),
    (decide (Stock_quantity ∈ ProductUpdate.model_fields_set payload));
    destruct f; cbn; repeat case_decide; done.
Qed.

Lemma row_of_product_getattr p r f :
  row_of_product p = Some r → Product.getattr p f = row_field r f.
Proof.
  unfold row_of_product.
  destruct p as [i [] [] [] [] b]; cbn; intros ?; simplify_eq; by destruct f.
Qed.

Lemma response_field_of_row product_id r f :
  response_field (ProductResponse.of_row product_id r) f = row_field r f.
Proof. by destruct f. Qed.

(** C5. An Update that succeeds answers with, and persists, a record that
    keeps the identifier, has the payload's value at every field the payload
    sets and the value the store held at every field it omits; the other
    rows of the table are untouched. *)
Theorem partial_update_frame product_id payload w updated :
  (serve (PUT_product product_id payload) w).1 = Response 200 (Some updated) →
  ∃ old,
    table w !! product_id = Some old
    ∧ ProductResponse.id updated = product_id
    ∧ ProductResponse.of_row product_id
        <$> table (serve (PUT_product product_id payload) w).2 !! product_id
      = Some updated
    ∧ (∀ f, f ∉ ProductUpdate.model_fields_set payload →
         response_field updated f = row_field old f)
    ∧ (∀ f, f ∈ ProductUpdate.model_fields_set payload →
         response_field updated f = ProductUpdate.value payload f)
    ∧ (∀ other, other ≠ product_id →
         table (serve (PUT_product product_id payload) w).2 !! other = table w !! other).
Proof.
  rewrite serve_table, serve_response. cbn [db_response db_table].
  destruct (ProductUpdate.model_dump_exclude_unset payload) as [|fv vals]; [done|].
  destruct (table w !! product_id) as [old|]; [|done].
  destruct (row_of_product (merged product_id old payload)) as [new|] eqn:Hnew; [|done].
  intros ?; simplify_eq. exists old. split; [done|]. split; [done|].
  rewrite lookup_insert_eq. split; [done|].
  repeat split.
  - intros f Hf. rewrite response_field_of_row, <- (row_of_product_getattr _ _ f Hnew).
    rewrite merged_getattr. by case_decide.
  - intros f Hf. rewrite response_field_of_row, <- (row_of_product_getattr _ _ f Hnew).
    rewrite merged_getattr. by case_decide.
  - intros other Hne. by rewrite lookup_insert_ne.
Qed.

Lemma partial_update_frame_witness :
  ∃ old,
    table warm_world !! "uuid-0" = Some old
    ∧ ProductResponse.id (mouse_response 7) = "uuid-0"
    ∧ ProductResponse.of_row "uuid-0"
        <$> table (serve (PUT_product "uuid-0" restock) warm_world).2 !! "uuid-0"
      = Some (mouse_response 7)
    ∧ (∀ f, f ∉ ProductUpdate.model_fields_set restock →
         response_field (mouse_response 7) f = row_field old f)
    ∧ (∀ f, f ∈ ProductUpdate.model_fields_set restock →
         response_field (mouse_response 7) f = ProductUpdate.value restock f)
    ∧ (∀ other, other ≠ "uuid-0" →
         table (serve (PUT_product "uuid-0" restock) warm_world).2 !! other
         = table warm_world !! other).
Proof.
  refine (partial_update_frame "uuid-0" restock warm_world (mouse_response 7) _).
  vm_compute. reflexivity.
Defined.

(** C6. An Update whose payload sets no field is refused with 400 before
    anything else is done: the handler leaves the world as it found it, so
    the durable store is neither read nor written and no call is made to the
    cache. *)
Theorem empty_update_rejected product_id payload w :
  ProductUpdate.model_fields_set payload = [] →
  update_product_endpoint product_id payload w
  = (Raise (HTTPException HTTP_400_BAD_REQUEST "At least one field is required"), w)
  ∧ (serve (PUT_product product_id payload) w).1 = Response HTTP_400_BAD_REQUEST None
  ∧ table (serve (PUT_product product_id payload) w).2 = table w
  ∧ client (serve (PUT_product product_id payload) w).2 = client w
  ∧ log (serve (PUT_product product_id payload) w).2 = log w.
Proof.
  intros Hset.
  assert (ProductUpdate.model_dump_exclude_unset payload = []) as Hdump.
  { unfold ProductUpdate.model_dump_exclude_unset. rewrite Hset.
    rewrite !filter_cons, filter_nil. repeat case_decide; set_solver. }
  split.
  - unfold update_product_endpoint. by rewrite Hdump.
  - unfold serve. rewrite update_product_endpoint_eq, Hdump. done.
Qed.

Lemma empty_update_rejected_witness :
  update_product_endpoint "uuid-0" no_fields warm_world
  = (Raise (HTTPException HTTP_400_BAD_REQUEST "At least one field is required"), warm_world)
  ∧ (serve (PUT_product "uuid-0" no_fields) warm_world).1 = Response HTTP_400_BAD_REQUEST None
  ∧ table (serve (PUT_product "uuid-0" no_fields) warm_world).2 = table warm_world
  ∧ client (serve (PUT_product "uuid-0" no_fields) warm_world).2 = client warm_world
  ∧ log (serve (PUT_product "uuid-0" no_fields) warm_world).2 = log warm_world.
Proof. exact (empty_update_rejected "uuid-0" no_fields warm_world eq_refl). Defined.

Ltac elem_of_trace :=
  let key := fresh "key" in
  let Hin := fresh "Hin" in
  intros key Hin;
  repeat (apply elem_of_cons in Hin as [Hin|Hin]; [by simplify_eq|]);
  by apply elem_of_nil in Hin.

(** C8. In an Update and in a Delete, every [DEL] sent to the cache comes
    after the commit of the durable write, with no statement sent to the
    durable store after it, and is for the key of the target.  A request
    that succeeds sends it, after its commit; a request that fails sends
    none. *)
Theorem invalidation_follows_commit product_id w :
  (∀ payload,
     let out := serve (PUT_product product_id payload) w in
     let trace := appended w out.2 in
     invalidates_after_commit false trace = true
     ∧ (∀ key, RedisDelete key ∈ trace → key = _cache_key product_id)
     ∧ if decide (status_of out.1 = 200)
       then ∃ p tail,
              trace = ([DbGet product_id; DbAdd p; DbCommit; DbRefresh product_id;
                        RedisDelete (_cache_key product_id)] ++ tail)%list
              ∧ forallb is_warning tail = true
       else forallb (λ e, negb (is_redis_delete e)) trace = true)
  ∧ (let out := serve (DELETE_product product_id) w in
     let trace := appended w out.2 in
     invalidates_after_commit false trace = true
     ∧ (∀ key, RedisDelete key ∈ trace → key = _cache_key product_id)
     ∧ if decide (status_of out.1 = 204)
       then ∃ tail,
              trace = ([DbGet product_id; DbDelete product_id; DbCommit;
                        RedisDelete (_cache_key product_id)] ++ tail)%list
              ∧ forallb is_warning tail = true
       else forallb (λ e, negb (is_redis_delete e)) trace = true).
Proof.
  split.
  - intros payload. cbv zeta. unfold serve. rewrite update_product_endpoint_eq. cbv zeta.
    destruct (ProductUpdate.model_dump_exclude_unset payload) as [|fv vals];
      [|destruct (table w !! product_id) as [old|];
        [destruct (row_of_product (merged product_id old payload)) as [new|]|]];
      cbn [fst snd respond status_of]; unfold_after; try (exfalso; congruence);
      calc_appended; (split; [reflexivity|]); (split; [elem_of_trace|]); try done;
      eexists _, _; (split; [reflexivity|]); reflexivity.
  - cbv zeta. unfold serve. rewrite delete_product_endpoint_eq. cbv zeta.
    destruct (table w !! product_id) as [old|];
      cbn [fst snd respond status_of]; unfold_after; try (exfalso; congruence);
      calc_appended; (split; [reflexivity|]); (split; [elem_of_trace|]); try done;
      eexists _; (split; [reflexivity|]); reflexivity.
Qed.

(** ** The cache layer *)

(** C9. With a cache that answers and a positive expiry setting, a record
    whose price is finite and that [set_product_in_cache] stored is what
    [get_product_from_cache] then returns for its identifier, field for
    field: both use the key ["product:" + id], the entry is held under that
    key until the expiry, and the JSON text written by the one is read back
    by the other to the same record. *)
Theorem cache_round_trip product w :
  healthy (client w) →
  0 < cache_ttl_seconds (settings w) →
  float_finite (ProductResponse.price product) = true →
  let stored := (set_product_in_cache product w).2 in
  let key := "product:" +:+ ProductResponse.id product in
  let text := ProductResponse.model_dump_json product in
  _cache_key (ProductResponse.id product) = key
  ∧ (get_product_from_cache (ProductResponse.id product) stored).1 = Return (Some product)
  ∧ entries (client stored) !! key = Some (text, clock w + cache_ttl_seconds (settings w))
  ∧ appended w (get_product_from_cache (ProductResponse.id product) stored).2
    = [RedisSet key text (cache_ttl_seconds (settings w)); RedisGet key]
  ∧ json_loads text ≫= ProductResponse.init = Some product.
Proof.
  intros Hh Httl Hfin. cbv zeta. split; [reflexivity|].
  change ("product:" +:+ ProductResponse.id product)
    with (_cache_key (ProductResponse.id product)).
  rewrite set_product_in_cache_eq, get_product_from_cache_eq. cbn [fst snd].
  assert ((cache_ttl_seconds (settings w) <=? 0) = false) as Hex by lia.
  assert ((clock w <? clock w + cache_ttl_seconds (settings w)) = true) as Hlive by lia.
  assert (after_set product w
          = set_client
              (Redis (<[_cache_key (ProductResponse.id product)
                        := (ProductResponse.model_dump_json product,
                            clock w + cache_ttl_seconds (settings w))]> (entries (client w)))
                 (outage (client w)) (S (calls (client w))))
              (emitted (RedisSet (_cache_key (ProductResponse.id product))
                          (ProductResponse.model_dump_json product)
                          (cache_ttl_seconds (settings w))) w)) as ->.
  { unfold after_set, set_raises, next_call_fails. by rewrite Hh, Hex. }
  assert (cache_lookup (ProductResponse.id product)
            (set_client
              (Redis (<[_cache_key (ProductResponse.id product)
                        := (ProductResponse.model_dump_json product,
                            clock w + cache_ttl_seconds (settings w))]> (entries (client w)))
                 (outage (client w)) (S (calls (client w))))
              (emitted (RedisSet (_cache_key (ProductResponse.id product))
                          (ProductResponse.model_dump_json product)
                          (cache_ttl_seconds (settings w))) w))
          = Some product) as Hlook.
  { unfold cache_lookup, cached_text, next_call_fails, emitted. world_proj.
    rewrite Hh, lookup_insert_eq. cbn [mbind option_bind]. unfold live. cbn [fst snd].
    rewrite Hlive. cbn [mbind option_bind]. by apply decode_dump. }
  split; [by rewrite Hlook|].
  split; [world_proj; by rewrite lookup_insert_eq|].
  split.
  { unfold after_get. rewrite (hit_no_warning _ _ _ Hlook).
    unfold warn, emitted. calc_appended. reflexivity. }
  rewrite json_loads_dump. cbn [mbind option_bind]. by rewrite init_product_json, Hfin.
Qed.

Lemma cache_round_trip_witness :
  (get_product_from_cache "uuid-0"
     (set_product_in_cache (mouse_response 120) (empty_world (FakeRedis ∅))).2).1
  = Return (Some (mouse_response 120)).
Proof.
  refine (proj1 (proj2
            (cache_round_trip (mouse_response 120) (empty_world (FakeRedis ∅)) _ _ _))).
  - intros n. reflexivity.
  - reflexivity.
  - reflexivity.
Defined.

(** The claim as the specification has it fails for a record with an
    infinite price, which [Field(gt=0)] accepts: its price is written as
    [null] and the text does not read back; and it fails when the expiry
    setting is not positive: the server refuses the [SET] and nothing is
    stored. *)
Lemma round_trip_lost :
  ProductCreate.valid (costly_mouse) = true
  ∧ (∀ n, outage (client (empty_world (FakeRedis ∅))) n = false)
  ∧ json_float (ProductCreate.price costly_mouse) = "null"
  ∧ (get_product_from_cache "uuid-0"
       (set_product_in_cache (costly_mouse_response) (empty_world (FakeRedis ∅))).2).1
    = Return None
  ∧ (get_product_from_cache "uuid-0"
       (set_product_in_cache (mouse_response 120) no_expiry_world).2).1
    = Return None.
Proof. vm_compute. repeat split. Qed.

(** C10. A field the payload sets to [null] counts as set: the payload is not
    empty and the Update is not refused with 400; the merge assigns [None] to
    that attribute of the loaded object, and the object is added to the
    session and flushed as it is.  The table, whose columns are not
    nullable, refuses the statement: the commit fails, the table is
    unchanged and the request answers 500. *)
Theorem null_field_update product_id payload f old w :
  f ∈ ProductUpdate.model_fields_set payload →
  ProductUpdate.value payload f = PyNone →
  table w !! product_id = Some old →
  let out := serve (PUT_product product_id payload) w in
  (f, PyNone) ∈ ProductUpdate.model_dump_exclude_unset payload
  ∧ status_of out.1 ≠ HTTP_400_BAD_REQUEST
  ∧ Product.getattr (merged product_id old payload) f = PyNone
  ∧ appended w out.2
    = [DbGet product_id; DbAdd (merged product_id old payload); DbRollback]
  ∧ out.1 = Response 500 None
  ∧ table out.2 = table w.
Proof.
  intros Hf Hnull Hold. cbv zeta.
  assert ((f, PyNone) ∈ ProductUpdate.model_dump_exclude_unset payload) as Hin.
  { unfold ProductUpdate.model_dump_exclude_unset. apply list_elem_of_filter.
    split; [done|]. rewrite <- Hnull.
    destruct f; repeat first [apply list_elem_of_here | apply list_elem_of_further]. }
  assert (Product.getattr (merged product_id old payload) f = PyNone) as Hattr.
  { rewrite merged_getattr. by case_decide. }
  assert (row_of_product (merged product_id old payload) = None) as Hrow.
  { destruct (row_of_product (merged product_id old payload)) as [new|] eqn:Hnew; [|done].
    rewrite (row_of_product_getattr _ _ f Hnew) in Hattr. by destruct f. }
  unfold serve. rewrite update_product_endpoint_eq. cbv zeta.
  destruct (ProductUpdate.model_dump_exclude_unset payload) as [|fv vals] eqn:Hdump.
  { by apply elem_of_nil in Hin. }
  rewrite Hold, Hrow. cbn [fst snd respond status_of]. unfold emitted. calc_appended.
  world_proj. by repeat split.
Qed.

Lemma null_field_update_witness :
  ProductUpdate.model_validate (JObj [("price", JNull)]) = Some null_price
  ∧ (serve (PUT_product "uuid-0" null_price) warm_world).1 = Response 500 None.
Proof.
  split; [reflexivity|].
  refine (proj1 (proj2 (proj2 (proj2 (proj2
            (null_field_update "uuid-0" null_price Price
               (new_row mouse) warm_world _ _ _)))))).
  - apply list_elem_of_here.
  - reflexivity.
  - vm_compute. reflexivity.
Defined.

(** ** No cache failure reaches a caller *)

Lemma serve_broken r w : broken (client w) → (serve r w).1 = db_response r w.
Proof.
  intros Hb. rewrite serve_response. destruct r; try reflexivity.
  by rewrite cache_lookup_broken.
Qed.

Lemma serve_warned r w :
  existsb is_warning (appended w (serve r w).2) = true → (serve r w).1 = db_response r w.
Proof.
  rewrite serve_response. destruct r as [?|product_id|? ?|?]; try reflexivity.
  destruct (cache_lookup product_id w) as [cached|] eqn:Hlook; [|reflexivity].
  rewrite serve_GET, get_product_endpoint_eq.
  change (cache_lookup product_id (set_session [] w)) with (cache_lookup product_id w).
  rewrite Hlook. unfold after_get.
  change (get_raises product_id (set_session [] w)) with (get_raises product_id w).
  rewrite (hit_no_warning _ _ _ Hlook). unfold warn. cbn [snd]. calc_appended. done.
Qed.

Lemma get_product_from_cache_with_eq product_id w :
  get_product_from_cache product_id w
  = get_product_from_cache_with product_of_text product_id w.
Proof.
  unfold get_product_from_cache, get_product_from_cache_with, try_except.
  rewrite !bind_eq. destruct (client_get (_cache_key product_id) w) as [[[[|c text]|]|e] w1];
    try reflexivity.
  rewrite !bind_eq. unfold product_of_text.
  destruct (json_loads (String c text)) as [data|]; cbn [lift]; [|reflexivity].
  unfold mret, M_ret. rewrite bind_eq.
  destruct (ProductResponse.init data) as [r|]; cbn [lift]; reflexivity.
Qed.

Lemma get_product_from_cache_with_total construct product_id w :
  ∃ found,
    (get_product_from_cache_with construct product_id w).1 = Return found
    ∧ (next_call_fails w = true → found = None)
    ∧ (cached_text product_id w = None → found = None)
    ∧ (cached_text product_id w = Some EmptyString → found = None)
    ∧ (∀ text exc,
         cached_text product_id w = Some text → construct text = Raise exc → found = None)
    ∧ (∀ c text product,
         next_call_fails w = false → cached_text product_id w = Some (String c text) →
         construct (String c text) = Return product → found = Some product).
Proof.
  unfold get_product_from_cache_with, try_except, cached_text, next_call_fails.
  rewrite bind_eq. unfold client_get.
  destruct (outage (client w) (calls (client w))) eqn:Hout.
  { exists None. cbn [fst]. repeat split; done. }
  destruct (entries (client w) !! _cache_key product_id ≫= live (clock w))
    as [[|c text]|] eqn:Htext.
  - exists None. repeat split; done.
  - rewrite bind_eq. unfold from_result.
    destruct (construct (String c text)) as [product|exc] eqn:Hc.
    + exists (Some product). cbn [fst]. repeat split; try done; intros; congruence.
    + exists None. repeat split; try done; intros; congruence.
  - exists None. repeat split; done.
Qed.

(** C4, as the code has it.  The three operations of the cache layer never
    raise.  [get_product_from_cache] returns [None] when the client raises,
    when the key is missing or expired, when the stored text is empty, and
    whenever building the record from the text raises, whatever the
    exception; it returns the record otherwise.  [set_product_in_cache] and
    [invalidate_product_cache] return and, when the call to the client
    raises, leave the entries as they were.  At the level of requests: the
    table a request leaves never depends on the cache, and a request during
    which a cache failure was logged answers what the durable store alone
    dictates, which is what it answers when the cache is down altogether.
    What a failure can change is the answer to a later request. *)
Theorem cache_layer_total w :
  (∀ construct product_id,
     ∃ found,
       (get_product_from_cache_with construct product_id w).1 = Return found
       ∧ (next_call_fails w = true → found = None)
       ∧ (cached_text product_id w = None → found = None)
       ∧ (cached_text product_id w = Some EmptyString → found = None)
       ∧ (∀ text exc,
            cached_text product_id w = Some text → construct text = Raise exc →
            found = None)
       ∧ (∀ c text product,
            next_call_fails w = false → cached_text product_id w = Some (String c text) →
            construct (String c text) = Return product → found = Some product))
  ∧ (∀ product_id,
       get_product_from_cache product_id w
       = get_product_from_cache_with product_of_text product_id w)
  ∧ (∀ product,
       (set_product_in_cache product w).1 = Return ()
       ∧ (set_raises w = true →
          entries (client (set_product_in_cache product w).2) = entries (client w)))
  ∧ (∀ product_id,
       (invalidate_product_cache product_id w).1 = Return ()
       ∧ (next_call_fails w = true →
          entries (client (invalidate_product_cache product_id w).2) = entries (client w)))
  ∧ (∀ r,
       table (serve r w).2 = table (serve r (set_client BrokenRedis w)).2
       ∧ (serve r (set_client BrokenRedis w)).1 = db_response r w
       ∧ (existsb is_warning (appended w (serve r w).2) = true →
          (serve r w).1 = db_response r w)).
Proof.
  split; [|split; [|split; [|split]]].
  - intros construct product_id. apply get_product_from_cache_with_total.
  - intros product_id. apply get_product_from_cache_with_eq.
  - intros product. rewrite set_product_in_cache_eq. split; [reflexivity|].
    unfold after_set. by intros ->.
  - intros product_id. rewrite invalidate_product_cache_eq. split; [reflexivity|].
    unfold after_invalidate. by intros ->.
  - intros r. split; [|split].
    + rewrite !serve_table. by apply db_table_ext.
    + rewrite serve_broken by (intros n; reflexivity). by apply db_response_ext.
    + apply serve_warned.
Qed.

(** C4, as the spec words it, fails: a cache failure changes the outcome
    of a later operation.  In the same run, the read after the update
    answers 7 in stock when every call to the cache is answered, and the
    stale 120 when the [DEL] of the update raised. *)
Lemma cache_failure_changes_outcome :
  (run update_delete_run (empty_world (FakeRedis ∅))).1
  = [Response 201 (Some (mouse_response 120)); Response 200 (Some (mouse_response 120));
     Response 200 (Some (mouse_response 7)); Response 200 (Some (mouse_response 7));
     Response 204 None; Response 404 None]
  ∧ (run update_delete_run (empty_world (FlakyRedis [3%nat]))).1
    = [Response 201 (Some (mouse_response 120)); Response 200 (Some (mouse_response 120));
       Response 200 (Some (mouse_response 7)); Response 200 (Some (mouse_response 120));
       Response 204 None; Response 404 None].
Proof. split; vm_compute; reflexivity. Qed.

(** ** The scenarios of the test suite *)

(** [test_redis_failure_gracefully_falls_back_to_db] *)
Example redis_failure_falls_back_to_db :
  (run [Call (POST_products mouse); Call (GET_product "uuid-0")] (empty_world BrokenRedis)).1
  = [Response 201 (Some (mouse_response 120)); Response 200 (Some (mouse_response 120))].
Proof. vm_compute. reflexivity. Qed.

(** [test_get_product_cache_miss_then_hit]: the row is deleted behind the
    service's back and the read is still answered, from the cache. *)
Example cache_hit_without_row :
  (serve (GET_product "uuid-0") (set_table ∅ warm_world)).1
  = Response 200 (Some (mouse_response 120)).
Proof. vm_compute. reflexivity. Qed.

(** [test_input_validation_for_post_and_put]: an empty body is a valid
    [ProductUpdate] that sets no field. *)
Example empty_body_sets_no_field :
  ProductUpdate.model_validate (JObj []) = Some no_fields.
Proof. reflexivity. Qed.

(** The prices of the seeded products as [model_dump_json] writes them. *)
Example seeded_prices_text :
  json_float float_24_99 = "24.99" ∧ json_float float_79_5 = "79.5"
  ∧ json_float float_39_0 = "39.0".
Proof. vm_compute. done. Qed.

(** A price beyond the largest float reads as infinity, which is greater
    than zero and is written [null]. *)
Example overflowing_price :
  json_loads "1e999" = Some (JFloat (Infinity false))
  ∧ float_gt_0 (Infinity false) = true
  ∧ json_float (Infinity false) = "null".
Proof. vm_compute. done. Qed.

(** Lengths are counted in characters, not in bytes. *)
Example length_in_characters :
  str_len "é" = 1%nat ∧ String.length "é" = 2%nat.
Proof. vm_compute. done. Qed.

(** A text that is not JSON, or not a product, is a miss and a warning. *)
Example malformed_entry_is_a_miss :
  let w := set_client (FakeRedis {[ "product:a" := ("{oops", 100) ]}) (empty_world BrokenRedis) in
  (get_product_from_cache "a" w).1 = Return None
  ∧ appended w (get_product_from_cache "a" w).2
    = [RedisGet "product:a"; LogWarning "Redis get failed; falling back to DB. reason=%s"].
Proof. vm_compute. split; reflexivity. Qed.

(* ===================================================================== *)
(** * More properties of the code *)
(* ===================================================================== *)

(** ** Startup seeding *)

Lemma create_app_seed_eq w :
  create_app_seed w
  = if (0 <? size (table w))%nat then (Return (), set_session [] w)
    else
      let u1 := uuid_source w (uuid_drawn w) in
      let u2 := uuid_source w (S (uuid_drawn w)) in
      let u3 := uuid_source w (S (S (uuid_drawn w))) in
      let ps := sample_products u1 u2 u3 in
      let w1 :=
        foldl (λ w p, emitted (DbAdd p) w)
          (set_uuid_drawn (S (S (S (uuid_drawn w)))) (set_session [] w)) ps in
      match flush (table w) (Insert <$> ps) with
      | Some t' => (Return (), set_table t' (emitted DbCommit w1))
      | None => (Raise IntegrityError, emitted DbRollback w1)
      end.
Proof.
  unfold create_app_seed, get_db, seed_products, count_products, mbind, M_bind, mret, M_ret.
  cbv beta iota zeta. change (table (set_session [] w)) with (table w).
  destruct (0 <? size (table w))%nat; [reflexivity|].
  unfold uuid4, db_add_all, db_add, db_commit, sample_products, mbind, M_bind, mret, M_ret.
  cbv beta iota zeta. cbn [Product.persistent fmap list_fmap foldl].
  unfold emitted. world_proj.
  cbn [app].
  destruct (flush (table w) _); reflexivity.
Qed.

(** X1. Seeding an empty table draws three identifiers and, when they are
    distinct, commits exactly the three sample rows under them, so that the
    count is three afterwards. *)
Theorem seed_fills_empty_table w :
  size (table w) = 0%nat →
  let u1 := uuid_source w (uuid_drawn w) in
  let u2 := uuid_source w (S (uuid_drawn w)) in
  let u3 := uuid_source w (S (S (uuid_drawn w))) in
  NoDup [u1; u2; u3] →
  (create_app_seed w).1 = Return ()
  ∧ table (create_app_seed w).2 = list_to_map (zip [u1; u2; u3] sample_rows)
  ∧ (count_products (create_app_seed w).2).1 = Return 3%nat
  ∧ uuid_drawn (create_app_seed w).2 = S (S (S (uuid_drawn w))).
Proof.
  intros Hsize. cbv zeta. intros Hnd.
  assert (table w = ∅) as Hempty by by apply map_size_empty_inv.
  rewrite create_app_seed_eq, Hsize. cbn [Nat.ltb Nat.leb]. cbv zeta. rewrite Hempty.
  set (u1 := uuid_source w (uuid_drawn w)) in *.
  set (u2 := uuid_source w (S (uuid_drawn w))) in *.
  set (u3 := uuid_source w (S (S (uuid_drawn w)))) in *.
  assert (u1 ≠ u2 ∧ u1 ≠ u3 ∧ u2 ≠ u3) as (N12 & N13 & N23).
  { apply NoDup_cons in Hnd as [H1 Hnd]. apply NoDup_cons in Hnd as [H2 _].
    split; [|split]; intros E;
      [ apply H1; rewrite E; apply list_elem_of_here
      | apply H1; rewrite E; apply list_elem_of_further, list_elem_of_here
      | apply H2; rewrite E; apply list_elem_of_here ]. }
  cbn [sample_products fmap list_fmap flush flush_one row_of_product Product.name
       Product.description Product.price Product.stock_quantity Product.id
       mbind option_bind].
  rewrite lookup_empty. cbn [mbind option_bind].
  rewrite lookup_insert_ne by done. rewrite lookup_empty. cbn [mbind option_bind].
  rewrite !lookup_insert_ne by done. rewrite lookup_empty. cbn [mbind option_bind fst snd].
  split; [done|]. unfold count_products, emitted. world_proj.
  cbn [zip zip_with sample_rows list_to_map foldr fst snd uncurry].
  split; [|split; [|reflexivity]].
  - apply map_eq. intros i. rewrite !lookup_insert.
    repeat case_decide; simplify_eq; done.
  - rewrite !map_size_insert_None; rewrite ?map_size_empty; try done.
    + by rewrite lookup_insert_ne.
    + rewrite !lookup_insert_ne by done. done.
Qed.

Lemma seed_fills_empty_table_witness :
  (create_app_seed (empty_world (FakeRedis ∅))).1 = Return ()
  ∧ table (create_app_seed (empty_world (FakeRedis ∅))).2
    = list_to_map (zip ["uuid-0"; "uuid-1"; "uuid-2"] sample_rows)
  ∧ (count_products (create_app_seed (empty_world (FakeRedis ∅))).2).1 = Return 3%nat
  ∧ uuid_drawn (create_app_seed (empty_world (FakeRedis ∅))).2 = 3%nat.
Proof.
  apply (seed_fills_empty_table (empty_world (FakeRedis ∅)) eq_refl).
  apply (bool_decide_unpack _). vm_compute. exact I.
Defined.


Lemma flush_one_insert_nonempty t p t' :
  flush_one t (Insert p) = Some t' → (0 < size t')%nat.
Proof.
  cbn [flush_one]. destruct (row_of_product p) as [r|]; cbn [mbind option_bind]; [|done].
  destruct (t !! Product.id p) eqn:Hid; [done|]. intros [= <-].
  rewrite map_size_insert_None by done. lia.
Qed.

(** X2. Once the startup seeding has returned, running it again changes
    nothing: no identifier is drawn, nothing is added or committed, the
    world is left as it was. *)
Theorem seed_only_once w :
  (create_app_seed w).1 = Return () →
  create_app_seed (create_app_seed w).2 = (Return (), (create_app_seed w).2).
Proof.
  rewrite (create_app_seed_eq w).
  destruct (0 <? size (table w))%nat eqn:Hcount.
  - intros _. cbn [snd]. rewrite create_app_seed_eq.
    change (table (set_session [] w)) with (table w). by rewrite Hcount.
  - cbv zeta.
    destruct (flush (table w) _) as [t'|] eqn:Hflush; cbn [fst snd]; [|done].
    intros _. rewrite create_app_seed_eq.
    assert (0 < size t')%nat as Hsize.
    { cbn [sample_products fmap list_fmap flush] in Hflush.
      destruct (flush_one (table w) _) as [t1|]; cbn [mbind option_bind] in Hflush; [|done].
      destruct (flush_one t1 _) as [t2|]; cbn [mbind option_bind] in Hflush; [|done].
      destruct (flush_one t2 _) as [t3|] eqn:H3; cbn [mbind option_bind] in Hflush; [|done].
      simplify_eq. by eapply flush_one_insert_nonempty. }
    unfold emitted at 1 2. world_proj.
    apply Nat.ltb_lt in Hsize. rewrite Hsize. reflexivity.
Qed.

Lemma seed_only_once_witness :
  create_app_seed (create_app_seed (empty_world (FakeRedis ∅))).2
  = (Return (), (create_app_seed (empty_world (FakeRedis ∅))).2).
Proof.
  apply (seed_only_once (empty_world (FakeRedis ∅))). vm_compute. reflexivity.
Defined.

(** ** What the handlers answer *)


(** ** Create *)

(** X4. A create whose drawn identifier is already a primary key of the
    table overwrites nothing: the commit fails, the request answers 500, the
    table is unchanged, and no call is made to the cache. *)
Theorem create_never_overwrites payload w old :
  table w !! uuid_source w (uuid_drawn w) = Some old →
  (serve (POST_products payload) w).1 = Response 500 None
  ∧ table (serve (POST_products payload) w).2 = table w
  ∧ forallb (λ e, negb (is_redis_event e)) (appended w (serve (POST_products payload) w).2)
    = true.
Proof.
  intros Hold. unfold serve. rewrite create_product_endpoint_eq. cbv zeta. rewrite Hold.
  cbn [fst snd respond]. unfold emitted. calc_appended. world_proj. done.
Qed.

Lemma create_never_overwrites_witness :
  (serve (POST_products mouse) (set_uuid_drawn 0 warm_world)).1 = Response 500 None
  ∧ table (serve (POST_products mouse) (set_uuid_drawn 0 warm_world)).2
    = table (set_uuid_drawn 0 warm_world)
  ∧ forallb (λ e, negb (is_redis_event e))
      (appended (set_uuid_drawn 0 warm_world)
         (serve (POST_products mouse) (set_uuid_drawn 0 warm_world)).2)
    = true.
Proof.
  apply (create_never_overwrites mouse (set_uuid_drawn 0 warm_world) (new_row mouse)).
  vm_compute. reflexivity.
Defined.



(** ** Delete *)

(** X6. A delete removes the row of its identifier and no other: a row that
    was there gives 204 and a table one row smaller, a missing one gives 404
    and the table as it was.  Either way the identifier is absent afterwards
    and a second delete answers 404, whatever the cache did. *)
Theorem delete_removes_row product_id w :
  let out := serve (DELETE_product product_id) w in
  table out.2 = delete product_id (table w)
  ∧ (∀ other, other ≠ product_id → table out.2 !! other = table w !! other)
  ∧ (serve (DELETE_product product_id) out.2).1 = Response HTTP_404_NOT_FOUND None
  ∧ match table w !! product_id with
    | Some _ => out.1 = Response 204 None ∧ size (table w) = S (size (table out.2))
    | None => out.1 = Response HTTP_404_NOT_FOUND None ∧ table out.2 = table w
    end.
Proof.
  cbv zeta. rewrite !serve_response. cbn [db_response].
  rewrite !serve_table. cbn [db_table]. rewrite lookup_delete_eq.
  split; [done|]. split; [intros other Hne; by rewrite lookup_delete_ne|]. split; [done|].
  destruct (table w !! product_id) as [old|] eqn:Hold.
  - split; [done|]. rewrite map_size_delete, Hold.
    assert (size (table w) ≠ 0%nat); [|lia].
    intros Hz. apply map_size_empty_inv in Hz. by rewrite Hz, lookup_empty in Hold.
  - split; [done|]. by apply delete_id.
Qed.

(** ** Update, twice *)

Lemma row_of_product_of_getattr p r :
  (∀ f, Product.getattr p f = row_field r f) → row_of_product p = Some r.
Proof.
  intros H. pose proof (H Name) as H1. pose proof (H Description) as H2.
  pose proof (H Price) as H3. pose proof (H Stock_quantity) as H4.
  destruct p, r. cbn in *. by subst.
Qed.

Lemma merged_again product_id old new payload :
  row_of_product (merged product_id old payload) = Some new →
  row_of_product (merged product_id new payload) = Some new.
Proof.
  intros Hnew. apply row_of_product_of_getattr. intros f.
  pose proof (row_of_product_getattr _ _ f Hnew) as Hf.
  rewrite merged_getattr in *. by case_decide.
Qed.

(** X7. An update is idempotent: sent a second time, the same payload gets
    the same answer and leaves the table as the first left it. *)
Theorem update_idempotent product_id payload w :
  let once := serve (PUT_product product_id payload) w in
  let twice := serve (PUT_product product_id payload) once.2 in
  twice.1 = once.1 ∧ table twice.2 = table once.2.
Proof.
  cbv zeta. rewrite !serve_response. cbn [db_response].
  rewrite !serve_table. cbn [db_table]. rewrite !serve_table. cbn [db_table].
  destruct (ProductUpdate.model_dump_exclude_unset payload) as [|fv vals]; [done|].
  destruct (table w !! product_id) as [old|] eqn:Hold; [|by rewrite Hold].
  destruct (row_of_product (merged product_id old payload)) as [new|] eqn:Hnew.
  - rewrite lookup_insert_eq, (merged_again _ _ _ _ Hnew). by rewrite insert_insert_eq.
  - by rewrite Hold, Hnew.
Qed.

(** ** One product's requests and another product's cache entry *)

Lemma cache_key_inj a b : _cache_key a = _cache_key b → a = b.
Proof.
  intros H. pose proof (product_id_of_cache_key a) as Ha.
  rewrite H, product_id_of_cache_key in Ha. by simplify_eq.
Qed.

(** X8. A request touches no cache entry but that of its own product: the
    entry under the key of any other identifier is after the request what it
    was before, whether the cache answers or raises. *)
Theorem other_entries_untouched r w other :
  other ≠ target r w →
  entries (client (serve r w).2) !! _cache_key other
  = entries (client w) !! _cache_key other.
Proof.
  intros Hne.
  assert (∀ mine, other ≠ mine → _cache_key mine ≠ _cache_key other) as Hkey.
  { intros mine Hm E. apply Hm. symmetry. by apply cache_key_inj. }
  serve_cases r w; cbn [snd target] in *; unfold_after;
    cbn [ProductResponse.id ProductResponse.of_row];
    rewrite ?lookup_insert_ne, ?lookup_delete_ne by (by apply Hkey); done.
Qed.

Lemma other_entries_untouched_witness :
  is_Some (entries (client two_cached_world) !! _cache_key "uuid-1")
  ∧ entries (client (serve (DELETE_product "uuid-1") two_cached_world).2)
      !! _cache_key "uuid-1" = None
  ∧ is_Some (entries (client two_cached_world) !! _cache_key "uuid-0")
  ∧ entries (client (serve (DELETE_product "uuid-1") two_cached_world).2)
      !! _cache_key "uuid-0"
    = entries (client two_cached_world) !! _cache_key "uuid-0".
Proof.
  split; [vm_compute; by eexists|]. split; [vm_compute; reflexivity|].
  split; [vm_compute; by eexists|].
  by apply (other_entries_untouched (DELETE_product "uuid-1") two_cached_world "uuid-0").
Defined.

(** ** A cache that answers *)

Lemma run_app steps1 steps2 w :
  run (steps1 ++ steps2)%list w
  = let '(answers1, w1) := run steps1 w in
    let '(answers2, w2) := run steps2 w1 in
    ((answers1 ++ answers2)%list, w2).
Proof.
  revert w. induction steps1 as [|[r|seconds] steps1 IH]; intros w; cbn [app run].
  - by destruct (run steps2 w).
  - destruct (serve r w) as [answer w1]. rewrite IH.
    destruct (run steps1 w1) as [answers1 w2]. by destruct (run steps2 w2).
  - apply IH.
Qed.

Lemma run_healthy_coherent steps : ∀ w,
  healthy (client w) → coherent w →
  healthy (client (run steps w).2) ∧ coherent (run steps w).2.
Proof.
  induction steps as [|[r|seconds] steps IH]; intros w Hh Hco; cbn [run]; [done| |].
  - pose proof (serve_coherent r w Hh Hco) as Hco'.
    destruct (serve_frame r w) as (_ & _ & _ & _ & Hout & _).
    destruct (serve r w) as [answer w1]. cbn [snd] in *.
    specialize (IH w1). destruct (run steps w1) as [answers w2]. cbn [snd] in *.
    apply IH; [|done]. intros n. by rewrite Hout.
  - apply IH; [done|]. unfold coherent in *. cbn. by apply entries_ok_later.
Qed.

Lemma serve_healthy_coherent r w :
  healthy (client w) → coherent w → (serve r w).1 = db_response r w.
Proof.
  intros Hh Hco. rewrite serve_response.
  destruct r as [payload|product_id|product_id payload|product_id]; try reflexivity.
  destruct (cache_lookup product_id w) as [cached|] eqn:Hc; [|reflexivity].
  apply coherent_lookup in Hc; [|done]. cbn [db_response].
  destruct (table w !! product_id); by simplify_eq/=.
Qed.

Lemma entry_mirrors_written t now product_id r ex :
  t !! product_id = Some r →
  entry_mirrors t now (_cache_key product_id)
    (ProductResponse.model_dump_json (ProductResponse.of_row product_id r), ex) = true.
Proof.
  intros Hr. unfold entry_mirrors. rewrite product_id_of_cache_key.
  unfold live. cbn [fst snd]. destruct (now <? ex); [|done].
  rewrite Hr. apply String.eqb_refl.
Qed.

Lemma entries_mirror_invalidated (t t' : gmap string row) now product_id
    (m : gmap string (string * Z)) :
  (∀ other, other ≠ product_id → t' !! other = t !! other) →
  map_Forall (λ key e, entry_mirrors t now key e = true) m →
  map_Forall (λ key e, entry_mirrors t' now key e = true) (delete (_cache_key product_id) m).
Proof.
  intros Ht Hm key e [Hne He]%lookup_delete_Some.
  specialize (Hm _ _ He). cbv beta in *. unfold entry_mirrors in *.
  destruct (product_id_of_key key) as [other|] eqn:Hkey; [|done].
  rewrite Ht; [done|]. intros ->. by apply product_id_of_key_inv in Hkey.
Qed.

Lemma entries_mirror_later (t : gmap string row) now seconds (m : gmap string (string * Z)) :
  map_Forall (λ key e, entry_mirrors t now key e = true) m →
  map_Forall (λ key e, entry_mirrors t (now + Z.of_N seconds) key e = true) m.
Proof.
  intros Hm key e He. specialize (Hm _ _ He). cbv beta in *. unfold entry_mirrors, live in *.
  destruct (product_id_of_key key); [|done].
  destruct (now + Z.of_N seconds <? e.2) eqn:Hlive; [|done].
  assert ((now <? e.2) = true) as Hnow by (apply Z.ltb_lt in Hlive; apply Z.ltb_lt; lia).
  by rewrite Hnow in Hm.
Qed.

Lemma serve_mirrors r w :
  healthy (client w) → cache_mirrors_store w → cache_mirrors_store (serve r w).2.
Proof.
  intros Hh Hco. unfold cache_mirrors_store in *.
  serve_cases r w; cbn [snd]; unfold_after; simplify_eq; try done;
    try (by rewrite Hh in *).
  all: try (eapply entries_mirror_invalidated; [|exact Hco]; intros other Hne;
            by rewrite ?lookup_insert_ne, ?lookup_delete_ne).
  all: try (apply map_Forall_insert_2; [|done]; by apply entry_mirrors_written).
Qed.

Lemma run_mirrors steps : ∀ w,
  healthy (client w) → cache_mirrors_store w →
  healthy (client (run steps w).2) ∧ cache_mirrors_store (run steps w).2.
Proof.
  induction steps as [|[r|seconds] steps IH]; intros w Hh Hco; cbn [run]; [done| |].
  - pose proof (serve_mirrors r w Hh Hco) as Hco'.
    destruct (serve_frame r w) as (_ & _ & _ & _ & Hout & _).
    destruct (serve r w) as [answer w1]. cbn [snd] in *.
    specialize (IH w1). destruct (run steps w1) as [answers w2]. cbn [snd] in *.
    apply IH; [|done]. intros n. by rewrite Hout.
  - apply IH; [done|]. unfold cache_mirrors_store in *. cbn.
    by apply entries_mirror_later.
Qed.

Lemma mirrors_coherent w : cache_mirrors_store w → coherent w.
Proof.
  intros Hm key e He. specialize (Hm _ _ He). cbv beta in *.
  unfold entry_mirrors, entry_ok in *.
  destruct (product_id_of_key key) as [product_id|]; [|done].
  destruct (live (clock w) e) as [text|]; [|done]. cbn [mbind option_bind].
  destruct (table w !! product_id) as [r|]; [|done].
  apply String.eqb_eq in Hm as ->. rewrite decode_dump_cases.
  destruct (float_finite _); [|done]. by apply bool_decide_eq_true_2.
Qed.

(** X9. Behind a cache that answers every call and holds nothing but what
    the service wrote from the table as it is, that state of the cache is
    an invariant of every run, time passing included; and in it every
    request is answered as the durable store alone dictates: a hit never
    differs from the row the table holds. *)
Theorem healthy_cache_serves_the_store steps w :
  healthy (client w) → cache_mirrors_store w →
  cache_mirrors_store (run steps w).2
  ∧ healthy (client (run steps w).2)
  ∧ ∀ r, (serve r (run steps w).2).1 = db_response r (run steps w).2.
Proof.
  intros Hh Hco. destruct (run_mirrors steps w Hh Hco) as [Hh' Hco'].
  split; [done|]. split; [done|]. intros r.
  apply serve_healthy_coherent; [done|]. by apply mirrors_coherent.
Qed.

Lemma healthy_cache_serves_the_store_witness :
  is_Some (cache_lookup "uuid-0" (run restock_run warm_world).2)
  ∧ is_Some (table (run restock_run warm_world).2 !! "uuid-0")
  ∧ (serve (GET_product "uuid-0") (run restock_run warm_world).2).1
    = db_response (GET_product "uuid-0") (run restock_run warm_world).2.
Proof.
  split; [vm_compute; by eexists|]. split; [vm_compute; by eexists|].
  refine (proj2 (proj2 (healthy_cache_serves_the_store restock_run warm_world _ _)) _).
  - intros n. reflexivity.
  - unfold cache_mirrors_store. apply (bool_decide_unpack _). vm_compute. exact I.
Defined.

Lemma cache_lookup_healthy product_id w :
  next_call_fails w = false → cache_lookup product_id w = cached_text product_id w ≫= decode.
Proof. unfold cache_lookup. by intros ->. Qed.

(** X10. Behind a cache that answers, with a positive expiry setting, a read
    that answered 200 with a record whose price is finite is followed by a
    read that is a hit: it answers the same record, and its only call is the
    [GET] to the cache; the durable store is not consulted. *)
Theorem second_read_is_a_hit product_id w found :
  healthy (client w) →
  0 < cache_ttl_seconds (settings w) →
  float_finite (ProductResponse.price found) = true →
  (serve (GET_product product_id) w).1 = Response 200 (Some found) →
  let w1 := (serve (GET_product product_id) w).2 in
  (serve (GET_product product_id) w1).1 = Response 200 (Some found)
  ∧ appended w1 (serve (GET_product product_id) w1).2 = [RedisGet (_cache_key product_id)].
Proof.
  intros Hh Httl Hfin Hfirst. cbv zeta.
  assert (cache_lookup product_id (serve (GET_product product_id) w).2 = Some found) as Hhit.
  { revert Hfirst. rewrite serve_GET, get_product_endpoint_eq.
    change (cache_lookup product_id (set_session [] w)) with (cache_lookup product_id w).
    change (table (set_session [] w)) with (table w). cbv zeta.
    destruct (cache_lookup product_id w) as [cached|] eqn:Hlook.
    - cbn [fst snd respond]. intros [= ->].
      rewrite cache_lookup_healthy in Hlook by apply Hh.
      rewrite cache_lookup_healthy by (unfold next_call_fails; unfold_after; apply Hh).
      unfold cached_text in *. by unfold_after.
    - destruct (table w !! product_id) as [r|] eqn:Hrow; cbn [fst snd respond]; [|done].
      intros [= Hfound]. rewrite <- Hfound in Hfin |- *.
      rewrite cache_lookup_healthy by (unfold next_call_fails; unfold_after; apply Hh).
      assert ((cache_ttl_seconds (settings w) <=? 0) = false) as Hex by lia.
      assert ((clock w <? clock w + cache_ttl_seconds (settings w)) = true) as Hlive by lia.
      unfold cached_text, after_set, set_raises, next_call_fails, emitted.
      unfold after_get, warn. destruct (get_raises product_id (set_session [] w));
        world_proj; rewrite Hh, Hex; cbn [orb]; world_proj;
        cbn [ProductResponse.id ProductResponse.of_row].
      all: rewrite lookup_insert_eq; cbn [mbind option_bind]; unfold live; cbn [fst snd];
        rewrite Hlive; cbn [mbind option_bind]; by apply decode_dump. }
  set (w1 := (serve (GET_product product_id) w).2) in *.
  rewrite serve_response, Hhit. split; [done|].
  rewrite serve_GET, get_product_endpoint_eq.
  change (cache_lookup product_id (set_session [] w1)) with (cache_lookup product_id w1).
  rewrite Hhit. cbn [snd]. unfold after_get.
  change (get_raises product_id (set_session [] w1)) with (get_raises product_id w1).
  rewrite (hit_no_warning _ _ _ Hhit). unfold warn. calc_appended. reflexivity.
Qed.

Lemma second_read_is_a_hit_witness :
  let w := (serve (POST_products mouse) (empty_world (FakeRedis ∅))).2 in
  let w1 := (serve (GET_product "uuid-0") w).2 in
  (serve (GET_product "uuid-0") w1).1 = Response 200 (Some (mouse_response 120))
  ∧ appended w1 (serve (GET_product "uuid-0") w1).2 = [RedisGet (_cache_key "uuid-0")].
Proof.
  cbv zeta.
  apply (second_read_is_a_hit "uuid-0"
           (serve (POST_products mouse) (empty_world (FakeRedis ∅))).2).
  - intros n. reflexivity.
  - reflexivity.
  - reflexivity.
  - vm_compute. reflexivity.
Defined.

(** ** Staleness is bounded by the expiry setting *)

Lemma serve_expires_within_ttl r w :
  expires_within_ttl w → expires_within_ttl (serve r w).2.
Proof.
  unfold expires_within_ttl. intros Hexp.
  serve_cases r w; cbn [snd]; unfold_after; try done;
    try (by apply map_Forall_delete).
  all: apply map_Forall_insert_2; [|done]; cbn [snd];
    match goal with H : _ || _ = false |- _ => apply orb_false_elim in H as [_ H] end; lia.
Qed.

Lemma run_expires_within_ttl steps : ∀ w,
  expires_within_ttl w →
  expires_within_ttl (run steps w).2 ∧ settings (run steps w).2 = settings w.
Proof.
  induction steps as [|[r|seconds] steps IH]; intros w Hexp; cbn [run]; [done| |].
  - pose proof (serve_expires_within_ttl r w Hexp) as Hexp'.
    destruct (serve_frame r w) as (Hset & _).
    destruct (serve r w) as [answer w1]. cbn [snd] in *.
    specialize (IH w1 Hexp'). destruct (run steps w1) as [answers w2]. cbn [snd] in *.
    destruct IH as [IH1 IH2]. split; [done|]. by rewrite IH2.
  - destruct (IH (set_clock (clock w + Z.of_N seconds) w)) as [IH1 IH2]; [|done].
    unfold expires_within_ttl in *. cbn.
    eapply map_Forall_impl; [exact Hexp|]. cbv beta. intros _ e He. lia.
Qed.

Lemma expired_entries_miss product_id seconds w :
  expires_within_ttl w →
  cache_ttl_seconds (settings w) ≤ Z.of_N seconds →
  cache_lookup product_id (set_clock (clock w + Z.of_N seconds) w) = None.
Proof.
  unfold expires_within_ttl, cache_lookup, cached_text. intros Hexp Hs.
  destruct (next_call_fails _); [done|]. world_proj.
  destruct (entries (client w) !! _cache_key product_id) as [e|] eqn:He; [|done].
  specialize (Hexp _ _ He). cbv beta in Hexp. cbn [mbind option_bind]. unfold live.
  assert ((clock w + Z.of_N seconds <? e.2) = false) as -> by lia. done.
Qed.

(** X11. An entry is never served once the configured expiry has passed
    since it was written.  From a world whose entries all expire within
    that time (an empty cache, or any world the service reached from one),
    after any run and whatever calls to the cache failed in it, a read made
    [cache_ttl_seconds] or more later is answered as the durable store
    dictates. *)
Theorem staleness_bounded_by_ttl steps seconds product_id w :
  expires_within_ttl w →
  cache_ttl_seconds (settings w) ≤ Z.of_N seconds →
  (run (steps ++ [Elapse seconds; Call (GET_product product_id)]) w).1
  = ((run steps w).1 ++ [db_response (GET_product product_id) (run steps w).2])%list.
Proof.
  intros Hexp Hs. rewrite run_app.
  destruct (run_expires_within_ttl steps w Hexp) as [Hexp' Hset].
  destruct (run steps w) as [answers w1]. cbn [fst snd] in *. cbn [run].
  pose proof (serve_response (GET_product product_id)
                (set_clock (clock w1 + Z.of_N seconds) w1)) as Hresp.
  cbv beta iota in Hresp.
  rewrite expired_entries_miss in Hresp by (done || by rewrite Hset).
  destruct (serve _ _) as [answer w2]. cbn [fst] in *. by rewrite Hresp.
Qed.

Lemma staleness_bounded_by_ttl_witness :
  (run (stale_update_run ++ [Elapse 3600; Call (GET_product "uuid-0")])
     (empty_world (FlakyRedis [3%nat]))).1
  = ((run stale_update_run (empty_world (FlakyRedis [3%nat]))).1
     ++ [db_response (GET_product "uuid-0")
           (run stale_update_run (empty_world (FlakyRedis [3%nat]))).2])%list.
Proof.
  apply (staleness_bounded_by_ttl stale_update_run 3600 "uuid-0"
           (empty_world (FlakyRedis [3%nat]))).
  - apply map_Forall_empty.
  - vm_compute. discriminate.
Defined.

(** ** Field constraints *)

Lemma row_valid_fields r :
  row_valid r = true ↔ ∀ f, field_ok f (row_field r f) = true.
Proof.
  unfold row_valid, all_fields. cbn [forallb]. split.
  - intros H f. repeat (apply andb_prop in H as [? H]). by destruct f.
  - intros H. by rewrite (H Name), (H Description), (H Price), (H Stock_quantity).
Qed.

Lemma update_valid_fields p f :
  update_valid p = true → ProductUpdate.value p f ≠ PyNone →
  field_ok f (ProductUpdate.value p f) = true.
Proof.
  unfold update_valid, all_fields. cbn [forallb]. intros H Hf.
  apply andb_prop in H as [H1 H]. apply andb_prop in H as [H2 H].
  apply andb_prop in H as [H3 H]. apply andb_prop in H as [H4 _].
  destruct f; [revert H1|revert H2|revert H3|revert H4]; revert Hf;
    match goal with |- ?v ≠ _ → _ => by destruct v end.
Qed.

Lemma new_row_valid payload : row_valid (new_row payload) = ProductCreate.valid payload.
Proof.
  unfold row_valid, ProductCreate.valid, all_fields.
  cbn [forallb row_field new_row row_name row_description row_price row_stock_quantity
       field_ok].
  by rewrite andb_true_r, !andb_assoc.
Qed.

Lemma merged_row_valid product_id old new payload :
  row_valid old = true → update_valid payload = true →
  row_of_product (merged product_id old payload) = Some new → row_valid new = true.
Proof.
  intros Hold Hpay Hnew. apply row_valid_fields. intros f.
  pose proof (row_of_product_getattr _ _ f Hnew) as Hf. rewrite merged_getattr in Hf.
  case_decide.
  - rewrite <- Hf. apply update_valid_fields; [done|]. rewrite Hf. by destruct f.
  - rewrite <- Hf. by apply row_valid_fields.
Qed.

Lemma serve_table_valid r w :
  table_valid (table w) → request_valid r = true → table_valid (table (serve r w).2).
Proof.
  unfold table_valid. intros Ht Hr. rewrite serve_table.
  destruct r as [payload|product_id|product_id payload|product_id];
    cbn [db_table request_valid] in *.
  - destruct (table w !! _); [done|].
    apply map_Forall_insert_2; [|done]. by rewrite new_row_valid.
  - done.
  - destruct (ProductUpdate.model_dump_exclude_unset payload); [done|].
    destruct (table w !! product_id) as [old|] eqn:Hold; [|done].
    destruct (row_of_product _) as [new|] eqn:Hnew; [|done].
    apply map_Forall_insert_2; [|done].
    eapply merged_row_valid; [|done..]. by apply (Ht product_id).
  - by apply map_Forall_delete.
Qed.

(** X12. The constraints of the schemas are an invariant of the store: when
    every row meets them, and every create and update payload of a run meets
    them where it has a value, every row meets them after the run, whatever
    the cache does.  A [null] sent for a field never reaches a row. *)
Theorem constraints_preserved steps w :
  table_valid (table w) → forallb step_valid steps = true →
  table_valid (table (run steps w).2).
Proof.
  revert w. induction steps as [|[r|seconds] steps IH]; intros w Ht Hs; cbn [run].
  - done.
  - cbn [forallb step_valid] in Hs. apply andb_prop in Hs as [Hr Hs].
    pose proof (serve_table_valid r w Ht Hr) as Ht'.
    destruct (serve r w) as [answer w1]. cbn [snd] in *.
    specialize (IH w1 Ht' Hs). by destruct (run steps w1).
  - cbn [forallb step_valid] in Hs. by apply IH.
Qed.

Lemma constraints_preserved_witness : table_valid (table (run sample_run warm_world).2).
Proof.
  apply (constraints_preserved sample_run warm_world).
  - unfold table_valid. apply (bool_decide_unpack _). vm_compute. exact I.
  - vm_compute. reflexivity.
Defined.

(** ** Who talks to what *)

(** X13. A read changes nothing in the durable store and invalidates
    nothing: it sends no [add], [delete], [commit], [rollback] or [refresh]
    and no [DEL].  A create, an update and a delete never read the cache and
    never fill it: they send no [GET] and no [SETEX], and the cache holds
    after them no entry it did not hold before. *)
Theorem division_of_labour r w :
  let trace := appended w (serve r w).2 in
  match r with
  | GET_product _ =>
      forallb (λ e, negb (is_db_write e || is_redis_delete e)) trace = true
  | _ =>
      forallb (λ e, negb (is_redis_get e || is_redis_set e)) trace = true
      ∧ entries (client (serve r w).2) ⊆ entries (client w)
  end.
Proof.
  cbv zeta.
  serve_cases r w; cbn [snd]; unfold_after; calc_appended;
    try reflexivity; (split; [reflexivity|]); try reflexivity; apply delete_subseteq.
Qed.



(** ** Warnings *)

Lemma written_text_decodes text : written_text text = true → is_Some (decode text).
Proof. unfold written_text. destruct (decode text); [by eexists|done]. Qed.

Lemma written_text_dump product :
  float_finite (ProductResponse.price product) = true →
  written_text (ProductResponse.model_dump_json product) = true.
Proof.
  intros Hfin. unfold written_text. rewrite decode_dump by done.
  rewrite Hfin. apply String.eqb_refl.
Qed.

Lemma get_raises_well_formed product_id w :
  healthy (client w) → entries_well_formed w → get_raises product_id w = false.
Proof.
  intros Hh Hwf. unfold get_raises, next_call_fails. rewrite Hh. cbn [orb].
  unfold cached_text.
  destruct (entries (client w) !! _cache_key product_id) as [e|] eqn:He; [|done].
  cbn [mbind option_bind]. unfold live. destruct (clock w <? e.2); [|done].
  destruct (written_text_decodes _ (Hwf _ _ He)) as [cached Hdec].
  destruct (e.1) as [|c text]; [done|]. apply bool_decide_eq_false_2. by rewrite Hdec.
Qed.

Lemma merged_row_finite product_id old new payload :
  row_finite old = true → request_finite (PUT_product product_id payload) = true →
  row_of_product (merged product_id old payload) = Some new → row_finite new = true.
Proof.
  unfold row_finite. cbn [request_finite]. intros Hold Hpay Hnew.
  pose proof (row_of_product_getattr _ _ Price Hnew) as Hf. rewrite merged_getattr in Hf.
  cbn [row_field ProductUpdate.value] in Hf. case_decide.
  - destruct (ProductUpdate.price payload) as [x|]; cbn [from_option] in Hf; [|done].
    injection Hf as <-. exact Hpay.
  - injection Hf as <-. exact Hold.
Qed.

Lemma serve_prices_finite r w :
  prices_finite (table w) → request_finite r = true → prices_finite (table (serve r w).2).
Proof.
  unfold prices_finite. intros Ht Hr. rewrite serve_table.
  destruct r as [payload|product_id|product_id payload|product_id]; cbn [db_table].
  - destruct (table w !! _); [done|]. by apply map_Forall_insert_2.
  - done.
  - destruct (ProductUpdate.model_dump_exclude_unset payload); [done|].
    destruct (table w !! product_id) as [old|] eqn:Hold; [|done].
    destruct (row_of_product _) as [new|] eqn:Hnew; [|done].
    apply map_Forall_insert_2; [|done].
    eapply merged_row_finite; [|done..]. by apply (Ht product_id).
  - by apply map_Forall_delete.
Qed.

Lemma serve_quiet r w :
  healthy (client w) → 0 < cache_ttl_seconds (settings w) →
  prices_finite (table w) →
  entries_well_formed w → quiet w →
  entries_well_formed (serve r w).2 ∧ quiet (serve r w).2.
Proof.
  intros Hh Httl Hfin Hwf Hq. unfold entries_well_formed, quiet in *.
  assert ((cache_ttl_seconds (settings w) <=? 0) = false) as Hpos by lia.
  pose proof (λ product_id, get_raises_well_formed product_id (set_session [] w) Hh Hwf)
    as Hget.
  serve_cases r w; cbn [snd]; unfold after_get; rewrite ?Hget; unfold_after;
    try (exfalso; rewrite ?Hh, ?Hpos in *; discriminate);
    (split; [|rewrite ?forallb_app, Hq; reflexivity]);
    first [ done
          | by apply map_Forall_delete
          | apply map_Forall_insert_2; [|done];
            cbn [fst]; apply written_text_dump;
            by eapply (Hfin product_id) ].
Qed.

(** X15. Behind a cache that answers every call, with a positive expiry
    setting, finite prices in the table and in the payloads, and a cache
    that holds only texts the service wrote for records with a finite price
    (an empty one, for instance), a run logs no warning, and the cache holds
    only such texts after it. *)
Theorem healthy_run_is_quiet steps w :
  healthy (client w) → 0 < cache_ttl_seconds (settings w) →
  prices_finite (table w) → forallb step_finite steps = true →
  entries_well_formed w → quiet w →
  entries_well_formed (run steps w).2 ∧ quiet (run steps w).2.
Proof.
  revert w. induction steps as [|[r|seconds] steps IH];
    intros w Hh Httl Hfin Hsteps Hwf Hq; cbn [run].
  - done.
  - cbn [forallb step_finite] in Hsteps. apply andb_prop in Hsteps as [Hr Hsteps].
    destruct (serve_quiet r w Hh Httl Hfin Hwf Hq) as [Hwf' Hq'].
    pose proof (serve_prices_finite r w Hfin Hr) as Hfin'.
    destruct (serve_frame r w) as (Hset & _ & _ & _ & Hout & _).
    destruct (serve r w) as [answer w1]. cbn [snd] in *.
    specialize (IH w1). destruct (run steps w1) as [answers w2]. cbn [snd] in *.
    apply IH; [|by rewrite Hset|done..]. intros n. by rewrite Hout.
  - cbn [forallb step_finite] in Hsteps. by apply IH.
Qed.

Lemma healthy_run_is_quiet_witness :
  entries_well_formed (run sample_run warm_world).2
  ∧ quiet (run sample_run warm_world).2.
Proof.
  apply (healthy_run_is_quiet sample_run warm_world).
  - intros n. reflexivity.
  - vm_compute. reflexivity.
  - unfold prices_finite. apply (bool_decide_unpack _). vm_compute. exact I.
  - vm_compute. reflexivity.
  - unfold entries_well_formed. apply (bool_decide_unpack _). vm_compute. exact I.
  - reflexivity.
Defined.
